(** * csap-node: column-wise chunk planning and row-window assembly

    A shallow embedding of [get_meta] and [read] of [csap_node_app.py],
    and the properties of the chunk planner (the vchunk loop of [get_meta])
    and of the row assembler (the per-vchunk loop of [read]).

    Conventions.
    - A Python call either returns a value or raises: [outcome A].
    - Strings are [string]; a character is a code point below 256.
    - [numpy.int64] values are [Z], the wrap-around of their addition is
      written out ([wrap64]).
    - The SAP connection, the clock and the database are the environment
      [Env]: the answers of the remote calls in call order, the value of
      [datetime.utcnow()], and whether the database accepts a write.  A
      run of [read] that returns is a [Run]: the value returned, the calls
      made and the tables written. *)

From Stdlib Require Import ZArith Lia Ascii String.
From stdpp Require Import base list strings pretty.

Local Open Scope Z_scope.

(** ** Python exceptions and the outcome of a call *)

Inductive exn : Type :=
  | KeyError          (* label absent from a DataFrame index *)
  | ValueError        (* truth value of a Series is ambiguous *)
  | IndexError        (* list index out of range *)
  | AssertionError    (* DataFrame: columns passed / data columns differ *)
  | RFCError          (* raised by pyrfc's Connection.call *)
  | SQLError.         (* raised by sqlalchemy / DataFrame.to_sql *)

Inductive outcome (A : Type) : Type :=
  | Return (a : A)
  | Raise (e : exn).
Arguments Return {A} a.
Arguments Raise {A} e.

#[global] Instance outcome_ret : MRet outcome := @Return.
#[global] Instance outcome_bind : MBind outcome :=
  λ A B f m, match m with Return a => f a | Raise e => Raise e end.

Definition returns {A} (m : outcome A) : Prop := ∃ a, m = Return a.

(** ** Strings: [upper], [strip], [split] *)

(** [unicode.upper] on the letters a-z; SAP field names are ASCII
    identifiers, other characters are left as they are. *)
Definition upper_char (c : ascii) : ascii :=
  let n := nat_of_ascii c in
  if ((97 <=? n) && (n <=? 122))%nat then ascii_of_nat (n - 32) else c.

Fixpoint upper (s : string) : string :=
  match s with
  | EmptyString => EmptyString
  | String c s' => String (upper_char c) (upper s')
  end.

(** ** get_meta *)

(** One row of the frame [meta] after line 87: the index label, the
    integer LENG, and the other DD03L columns, which are carried along. *)
Record MetaRow : Type := {
  FIELDNAME : string;
  LENG : Z;
  OTHER : list string
}.

(** [meta = meta[meta.LENG > 0]] *)
Definition drop_includes (meta : list MetaRow) : list MetaRow :=
  filter (λ r, 0 < LENG r) meta.

(** [meta.index.tolist()] *)
Definition index_tolist (meta : list MetaRow) : list string :=
  FIELDNAME <$> meta.

(** The rows of [meta] carrying the index label [label]. *)
Definition rows_at (meta : list MetaRow) (label : string) : list MetaRow :=
  filter (λ r, FIELDNAME r = label) meta.

(** [meta.loc[label, 'LENG']] as the loop uses it.  A label that is absent
    raises KeyError.  A label carried by several rows yields a Series; the
    sum is then a Series too and the [if] of line 102 raises ValueError, so
    nothing of that pass is kept. *)
Definition loc_LENG (meta : list MetaRow) (label : string) : outcome Z :=
  match rows_at meta label with
  | [] => Raise KeyError
  | [r] => Return (LENG r)
  | _ :: _ :: _ => Raise ValueError
  end.

(** Addition of [numpy.int64] scalars wraps. *)
Definition wrap64 (z : Z) : Z := (z + 2 ^ 63) `mod` 2 ^ 64 - 2 ^ 63.

(** The variables of the vchunk loop. *)
Record PlanState : Type := {
  st_vchunks : list (list string);
  st_chunksum : Z;
  st_chunk : list string
}.

Definition plan_init : PlanState :=
  {| st_vchunks := []; st_chunksum := 0; st_chunk := [] |}.

(** One pass of [for field in fields] (lines 100-107). *)
Definition plan_step (meta : list MetaRow) (sap_buffer_size : Z)
    (st : PlanState) (field : string) : outcome PlanState :=
  length ← loc_LENG meta (upper field);
  let chunksum := wrap64 (st_chunksum st + length) in
  if sap_buffer_size <? chunksum
  then Return {| st_vchunks := st_vchunks st ++ [st_chunk st];
                 st_chunksum := 0;
                 st_chunk := [field] |}
  else Return {| st_vchunks := st_vchunks st;
                 st_chunksum := chunksum;
                 st_chunk := st_chunk st ++ [field] |}.

Fixpoint plan_loop (meta : list MetaRow) (sap_buffer_size : Z)
    (st : PlanState) (fields : list string) : outcome PlanState :=
  match fields with
  | [] => Return st
  | field :: rest =>
      st' ← plan_step meta sap_buffer_size st field;
      plan_loop meta sap_buffer_size st' rest
  end.

(** [if chunk: vchunks.append(chunk)] (lines 108-109). *)
Definition plan_close (st : PlanState) : list (list string) :=
  match st_chunk st with
  | [] => st_vchunks st
  | _ :: _ => st_vchunks st ++ [st_chunk st]
  end.

(** Lines 96-110: the chunk planner. *)
Definition get_meta_vchunks (meta : list MetaRow) (sap_buffer_size : Z)
    (fields : list string) : outcome (list (list string)) :=
  st ← plan_loop meta sap_buffer_size plan_init fields;
  Return (plan_close st).

(** The dictionary [get_meta] returns.  [meta_csv] stands for the frame that
    [to_csv] writes out. *)
Record Metadata : Type := {
  meta_csv : list MetaRow;
  vchunks : list (list string)
}.

(** [get_meta] from line 88 on; [meta0] is the frame of line 87. *)
Definition get_meta (meta0 : list MetaRow) (fields : option (list string))
    (sap_buffer_size : Z) : outcome Metadata :=
  let meta := drop_includes meta0 in
  let fields := match fields with
                | None => index_tolist meta
                | Some fs => fs
                end in
  vcs ← get_meta_vchunks meta sap_buffer_size fields;
  Return {| meta_csv := meta; vchunks := vcs |}.

(** Summed width of a vchunk, for fields the catalog knows. *)
Definition width_of (meta : list MetaRow) (field : string) : Z :=
  match loc_LENG meta (upper field) with
  | Return w => w
  | Raise _ => 0
  end.

Definition chunk_width (meta : list MetaRow) (vchunk : list string) : Z :=
  foldr (λ f acc, width_of meta f + acc) 0 vchunk.

(** A catalog of single-letter fields, as in the examples. *)
Definition catalog (ws : list (string * Z)) : list MetaRow :=
  (λ p, {| FIELDNAME := p.1; LENG := p.2; OTHER := [] |}) <$> ws.


(** ** read *)

(** [unicode.isspace] on code points below 256. *)
Definition is_space (c : ascii) : bool :=
  let n := nat_of_ascii c in
  (((9 <=? n) && (n <=? 13)) || ((28 <=? n) && (n <=? 32))
   || (n =? 133) || (n =? 160))%nat.

Fixpoint lstrip (s : string) : string :=
  match s with
  | EmptyString => EmptyString
  | String c s' => if is_space c then lstrip s' else s
  end.

Fixpoint rstrip (s : string) : string :=
  match s with
  | EmptyString => EmptyString
  | String c s' =>
      match rstrip s' with
      | EmptyString => if is_space c then EmptyString else String c EmptyString
      | r => String c r
      end
  end.

(** [unicode.strip] *)
Definition strip (s : string) : string := lstrip (rstrip s).

(** [s.split('|')] *)
Fixpoint split_bar (s : string) : list string :=
  match s with
  | EmptyString => [EmptyString]
  | String c s' =>
      if Ascii.eqb c "|" then EmptyString :: split_bar s'
      else match split_bar s' with
           | [] => [String c EmptyString]
           | w :: ws => String c w :: ws
           end
  end.

(** [[map(unicode.strip, x['WA'].split('|')) for x in DATA]] (lines 158-159);
    [DATA] is given by its WA strings. *)
Definition parse (DATA : list string) : list (list string) :=
  (λ WA, strip <$> split_bar WA) <$> DATA.

(** [gFIELDS]: one [{'FIELDNAME': fi}] per field, given by the names. *)
Definition gFIELDS (fields : list string) : list string := fields.

(** The keyword arguments of one BBP_RFC_READ_TABLE call. *)
Record Request : Type := {
  QUERY_TABLE : string;
  OPTIONS : string;
  FIELDS : list string;
  ROWCOUNT : Z;
  ROWSKIPS : Z
}.

(** What [cnxn.call] does: it raises, or it returns a response whose
    ['DATA'] is [None] or a list of rows. *)
Inductive Response : Type :=
  | RfcRaises
  | RfcReturns (DATA : option (list string)).

(** A frame: column labels and rows of cells; a missing cell is [None]. *)
Record DataFrame : Type := {
  df_columns : list string;
  df_rows : list (list (option string))
}.

Record Env : Type := {
  respond : nat → Response;   (* the answer to the k-th call of a read *)
  utcnow : string;            (* the formatted [datetime.utcnow()] *)
  db_accepts : bool           (* whether [to_sql] goes through *)
}.

(** The variables of the per-vchunk loop of [read], and the calls made. *)
Record AsmState : Type := {
  st_data : option (list (list string));
  st_fields : option (list string);
  st_calls : list Request
}.

Definition asm_init : AsmState :=
  {| st_data := None; st_fields := None; st_calls := [] |}.

(** [[data[idx] + chunkrow for idx, chunkrow in enumerate(chunk)]], with
    [enumerate] counting from [idx]. *)
Fixpoint append_columns (idx : nat) (data chunk : list (list string))
    : outcome (list (list string)) :=
  match chunk with
  | [] => Return []
  | chunkrow :: rest =>
      match data !! idx with
      | None => Raise IndexError
      | Some row =>
          rows ← append_columns (S idx) data rest;
          Return ((row ++ chunkrow) :: rows)
      end
  end.

(** The arguments of the call of lines 148-152. *)
Definition read_request (table_name where_ : string) (vchunk : list string)
    (n ri : Z) : Request :=
  {| QUERY_TABLE := table_name; OPTIONS := where_; FIELDS := gFIELDS vchunk;
     ROWCOUNT := n; ROWSKIPS := ri |}.

(** [for vchunk in vchunks] (lines 147-168).  The vchunks are the lists
    decoded from the request body, so they are distinct objects and the
    in-place [fields += vchunk] extends only the first of them, which the
    loop has passed. *)
Fixpoint read_loop (env : Env) (table_name where_ : string) (ri n : Z)
    (vchunks : list (list string)) (st : AsmState) : outcome AsmState :=
  match vchunks with
  | [] => Return st
  | vchunk :: rest =>
      let request := read_request table_name where_ vchunk n ri in
      let calls := st_calls st ++ [request] in
      match respond env (length (st_calls st)) with
      | RfcRaises => Raise RFCError
      | RfcReturns None =>
          (* There are no rows... break *)
          Return {| st_data := st_data st; st_fields := st_fields st;
                    st_calls := calls |}
      | RfcReturns (Some DATA) =>
          let chunk := parse DATA in
          match st_data st with
          | None =>
              read_loop env table_name where_ ri n rest
                {| st_data := Some chunk; st_fields := Some vchunk;
                   st_calls := calls |}
          | Some data =>
              data' ← append_columns 0 data chunk;
              read_loop env table_name where_ ri n rest
                {| st_data := Some data';
                   st_fields := Some (default [] (st_fields st) ++ vchunk);
                   st_calls := calls |}
          end
      end
  end.

(** [pd.DataFrame(data=data, columns=fields)].  No data, or no rows, gives
    an empty frame with the columns passed.  Otherwise the rows are padded
    with missing cells to the longest of them, and that length has to be
    the number of columns passed. *)
Definition DataFrame_new (data : option (list (list string)))
    (columns : option (list string)) : outcome DataFrame :=
  match data with
  | None | Some [] =>
      Return {| df_columns := default [] columns; df_rows := [] |}
  | Some rows =>
      let k := max_list (length <$> rows) in
      let padded :=
        (λ r, (Some <$> r) ++ replicate (k - length r) None) <$> rows in
      match columns with
      | None =>
          Return {| df_columns := (λ i, pretty i) <$> seq 0 k;
                    df_rows := padded |}
      | Some cols =>
          if decide (length cols = k)
          then Return {| df_columns := cols; df_rows := padded |}
          else Raise AssertionError
      end
  end.

(** [df[label] = value]: a column of that label is overwritten, otherwise
    the column is appended. *)
Definition set_column (df : DataFrame) (label value : string) : DataFrame :=
  if decide (label ∈ df_columns df)
  then {| df_columns := df_columns df;
          df_rows :=
            (λ row, zip_with (λ c v, if decide (c = label) then Some value
                                     else v) (df_columns df) row)
            <$> df_rows df |}
  else {| df_columns := df_columns df ++ [label];
          df_rows := (λ row, row ++ [Some value]) <$> df_rows df |}.

(** [json_out]; [DATA] stands for the frame that [to_csv] writes out. *)
Record JsonOut : Type := {
  STATUS : string;
  TIMESTAMP : string;
  COUNT : nat;
  DATA : option DataFrame
}.

(** A run of [read] that returns: the value returned, the remote calls
    made, and the tables of the database afterwards. *)
Record Run : Type := {
  returned : JsonOut;
  called : list Request;
  stored : list (string * DataFrame)
}.

(** [df.to_sql(name, engine, if_exists='append', ...)] *)
Definition to_sql (env : Env) (name : string) (df : DataFrame)
    (db : list (string * DataFrame)) : outcome (list (string * DataFrame)) :=
  if db_accepts env then Return (db ++ [(name, df)]) else Raise SQLError.

Definition read (env : Env) (table_name : string)
    (vchunks : list (list string)) (ri n : Z) (where_ : string)
    (sqlalchemy_cnxnstr output_tablename : option string) (keep : bool)
    (db : list (string * DataFrame)) : outcome Run :=
  st ← read_loop env table_name where_ ri n vchunks asm_init;
  let timestamp := utcnow env in
  df ← DataFrame_new (st_data st) (st_fields st);
  let df := set_column df "TIMESTAMP" timestamp in
  let count := length (df_rows df) in
  let json_out := {| STATUS := "FAIL"; TIMESTAMP := timestamp;
                     COUNT := count; DATA := None |} in
  '(json_out, db) ←
    match sqlalchemy_cnxnstr with
    | Some _ =>
        let output_tablename :=
          match output_tablename with
          | Some (String c s) => String c s
          | _ => table_name
          end in
        db' ← to_sql env output_tablename df db;
        Return ({| STATUS := "OK"; TIMESTAMP := TIMESTAMP json_out;
                   COUNT := COUNT json_out; DATA := DATA json_out |}, db')
    | None => Return (json_out, db)
    end;
  let json_out :=
    if keep
    then {| STATUS := "OK"; TIMESTAMP := TIMESTAMP json_out;
            COUNT := COUNT json_out; DATA := Some df |}
    else json_out in
  Return {| returned := json_out; called := st_calls st; stored := db |}.


(** A remote source that answers its calls from a list, for the examples. *)
Definition script (rs : list Response) : nat → Response :=
  λ k, default RfcRaises (rs !! k).

(** The number of rows of a response. *)
Definition row_count (r : Response) : nat :=
  match r with
  | RfcReturns (Some DATA) => length DATA
  | _ => 0%nat
  end.

Definition has_data (r : Response) : Prop :=
  ∃ DATA, r = RfcReturns (Some DATA).

(** Row [i] across the partial row sets: its cells in each, in order. *)
Definition cells_at (i : nat) (chunks : list (list (list string)))
    : list string :=
  concat ((λ chunk, default [] (chunk !! i)) <$> chunks).

(** What the planner has placed so far: the closed chunks, then the open
    one. *)
Definition placed (st : PlanState) : list string :=
  concat (st_vchunks st) ++ st_chunk st.

(** ** Notions used in the further properties *)

(** The invariant of the vchunk loop behind the width bounds: the running
    sum is within the budget; it is the width of the open chunk while no
    chunk has been closed, and afterwards the width of the open chunk
    without the field that opened it. *)
Definition plan_inv (meta : list MetaRow) (sap_buffer_size : Z)
    (st : PlanState) : Prop :=
  Forall (λ vc, chunk_width meta (tail vc) ≤ sap_buffer_size) (st_vchunks st)
  ∧ chunk_width meta (hd [] (st_vchunks st ++ [st_chunk st]))
    ≤ sap_buffer_size
  ∧ 0 ≤ st_chunksum st ≤ sap_buffer_size
  ∧ match st_vchunks st with
    | [] => st_chunksum st = chunk_width meta (st_chunk st)
    | _ :: _ =>
        st_chunk st ≠ []
        ∧ st_chunksum st = chunk_width meta (tail (st_chunk st))
    end.

(** The loop variables with every field name in upper case. *)
Definition upper_state (st : PlanState) : PlanState :=
  {| st_vchunks := (λ vc : list string, upper <$> vc) <$> st_vchunks st;
     st_chunksum := st_chunksum st;
     st_chunk := upper <$> st_chunk st |}.

(** ['|'.join(cells)], the line the remote source sends for a row. *)
Fixpoint join_bar (cells : list string) : string :=
  match cells with
  | [] => EmptyString
  | cell :: rest =>
      match rest with
      | [] => cell
      | _ :: _ => String.append cell (String "|" (join_bar rest))
      end
  end.

(** A string without the delimiter. *)
Fixpoint no_bar (s : string) : bool :=
  match s with
  | EmptyString => true
  | String c s' => negb (Ascii.eqb c "|") && no_bar s'
  end.

(** A string that begins, or ends, with white space. *)
Definition starts_space (s : string) : bool :=
  match s with
  | EmptyString => false
  | String c _ => is_space c
  end.

Fixpoint ends_space (s : string) : bool :=
  match s with
  | EmptyString => false
  | String c s' =>
      match s' with
      | EmptyString => is_space c
      | String _ _ => ends_space s'
      end
  end.

(** A frame whose rows all have one cell per column. *)
Definition rectangular (df : DataFrame) : Prop :=
  Forall (λ row, length row = length (df_columns df)) (df_rows df).

(** The table [read] writes to: [output_tablename if output_tablename else
    table_name]. *)
Definition sink_table (table_name : string) (output_tablename : option string)
    : string :=
  match output_tablename with
  | Some (String c s) => String c s
  | _ => table_name
  end.

(** Row counts that never grow from one partial row set to the next,
    starting from [m]. *)
Fixpoint descending (m : nat) (DATAs : list (list string)) : Prop :=
  match DATAs with
  | [] => True
  | DATA :: rest => (length DATA ≤ m)%nat ∧ descending (length DATA) rest
  end.

(** The row count of the last partial row set, [m] when there is none. *)
Definition last_count (m : nat) (DATAs : list (list string)) : nat :=
  foldl (λ _ DATA, length DATA) m DATAs.

(** ** Inputs of the examples *)

Definition catalog_abcd : list MetaRow :=
  catalog [("A", 100); ("B", 50); ("C", 500); ("D", 30)].

(** A table whose only DD03L row is an include. *)
Definition catalog_include : list MetaRow :=
  catalog [(".INCLUDE", 0)].

Definition catalog_mixed : list MetaRow :=
  catalog [("MANDT", 3); (".INCLUDE", 0); ("MATNR", 18)].

Definition env_of (rs : list Response) : Env :=
  {| respond := script rs; utcnow := "2016-05-01 12:00:00";
     db_accepts := true |}.

(** Two rows for the first vchunk, one for the second. *)
Definition env_fewer : Env :=
  env_of [RfcReturns (Some ["a |b"; "c| d"]); RfcReturns (Some ["x"])].

(** One row for the first vchunk, two for the second. *)
Definition env_more : Env :=
  env_of [RfcReturns (Some ["a |b"]); RfcReturns (Some ["x"; "y"])].

(** Two rows for each of two vchunks. *)
Definition env_aligned : Env :=
  env_of [RfcReturns (Some ["a |b"; "c| d"]); RfcReturns (Some ["x"; "y"])].

(** No data for the first vchunk. *)
Definition env_no_rows : Env :=
  env_of [RfcReturns None; RfcReturns (Some ["x"])].

(** Rows for the first vchunk, no data for the second. *)
Definition env_gap : Env :=
  env_of [RfcReturns (Some ["a |b"]); RfcReturns None;
          RfcReturns (Some ["z"])].

(** One row with a cell too many for two fields. *)
Definition env_ragged : Env :=
  env_of [RfcReturns (Some ["a|b|c"])].

(** A database that takes no write. *)
Definition env_db_down : Env :=
  {| respond := script [RfcReturns (Some ["a |b"])];
     utcnow := "2016-05-01 12:00:00"; db_accepts := false |}.

Definition frame_aligned : DataFrame :=
  {| df_columns := ["A"; "B"; "C"; "TIMESTAMP"];
     df_rows := [[Some "a"; Some "b"; Some "x"; Some "2016-05-01 12:00:00"];
                 [Some "c"; Some "d"; Some "y"; Some "2016-05-01 12:00:00"]] |}.

(** [read] on [env_aligned], two vchunks, written to a database and kept. *)
Definition run_stored : Run :=
  {| returned := {| STATUS := "OK"; TIMESTAMP := "2016-05-01 12:00:00";
                    COUNT := 2; DATA := Some frame_aligned |};
     called := [read_request "MARA" "" ["A"; "B"] 10 0;
                read_request "MARA" "" ["C"] 10 0];
     stored := [("MARA", frame_aligned)] |}.

(** [read] on [env_gap] for the first vchunk alone, kept. *)
Definition run_gap_pre : Run :=
  {| returned :=
       {| STATUS := "OK"; TIMESTAMP := "2016-05-01 12:00:00"; COUNT := 1;
          DATA := Some
            {| df_columns := ["A"; "B"; "TIMESTAMP"];
               df_rows := [[Some "a"; Some "b";
                            Some "2016-05-01 12:00:00"]] |} |};
     called := [read_request "MARA" "" ["A"; "B"] 10 0];
     stored := [] |}.

(** * The chunk planner *)

Section Planner.
Variable meta : list MetaRow.
Variable sap_buffer_size : Z.

Lemma plan_step_placed st field st' :
  plan_step meta sap_buffer_size st field = Return st' →
  placed st' = placed st ++ [field].
Proof.
  unfold plan_step, placed.
  destruct (loc_LENG meta (upper field)) as [w|e]; simpl; [|discriminate].
  destruct (sap_buffer_size <? _); intros [= <-]; simpl.
  - rewrite concat_app. simpl. by rewrite app_nil_r.
  - by rewrite app_assoc.
Qed.

Lemma plan_loop_placed fields : ∀ st st',
  plan_loop meta sap_buffer_size st fields = Return st' →
  placed st' = placed st ++ fields.
Proof.
  induction fields as [|field rest IH]; intros st st'; simpl.
  - intros [= <-]. by rewrite app_nil_r.
  - destruct (plan_step meta sap_buffer_size st field) as [st1|e] eqn:Hstep;
      simpl; [|discriminate].
    intros Hloop. rewrite (IH _ _ Hloop), (plan_step_placed _ _ _ Hstep).
    by rewrite <- app_assoc.
Qed.

Lemma plan_close_placed st : concat (plan_close st) = placed st.
Proof.
  unfold plan_close, placed. destruct (st_chunk st) as [|f fs].
  - by rewrite app_nil_r.
  - rewrite concat_app. simpl. by rewrite app_nil_r.
Qed.

Lemma loc_LENG_unique label :
  length (rows_at meta label) = 1%nat → returns (loc_LENG meta label).
Proof.
  unfold loc_LENG. destruct (rows_at meta label) as [|r [|r' rs]];
    simpl; intros H; try discriminate. by exists (LENG r).
Qed.

Lemma plan_step_returns st field :
  length (rows_at meta (upper field)) = 1%nat →
  returns (plan_step meta sap_buffer_size st field).
Proof.
  intros [w Hw]%loc_LENG_unique. unfold plan_step. rewrite Hw. simpl.
  destruct (sap_buffer_size <? _); eexists; reflexivity.
Qed.

Lemma plan_loop_returns fields : ∀ st,
  Forall (λ f, length (rows_at meta (upper f)) = 1%nat) fields →
  returns (plan_loop meta sap_buffer_size st fields).
Proof.
  induction fields as [|field rest IH]; intros st Hall; simpl.
  - by exists st.
  - apply Forall_cons in Hall as [Hf Hrest].
    destruct (plan_step_returns st field Hf) as [st1 ->]. simpl. by apply IH.
Qed.

(** C1. Whatever the budget, when every field of the list names exactly
    one row of the catalog, the planner returns, and the concatenation of
    the vchunks it returns, in vchunk order and then in the order within
    each vchunk, is the field list itself: the same fields in the same
    order, none twice and none left out. *)
Theorem vchunks_concat_is_fields (fields : list string) :
  Forall (λ f, length (rows_at meta (upper f)) = 1%nat) fields →
  ∃ vcs, get_meta_vchunks meta sap_buffer_size fields = Return vcs
         ∧ concat vcs = fields.
Proof.
  intros Hall. unfold get_meta_vchunks.
  destruct (plan_loop_returns fields plan_init Hall) as [st Hst].
  rewrite Hst. simpl. eexists; split; [reflexivity|].
  rewrite plan_close_placed. by rewrite (plan_loop_placed _ _ _ Hst).
Qed.
End Planner.

Lemma vchunks_concat_is_fields_abcd :
  ∃ vcs, get_meta_vchunks catalog_abcd 150 ["A"; "B"; "C"; "D"] = Return vcs
         ∧ concat vcs = ["A"; "B"; "C"; "D"].
Proof.
  apply (vchunks_concat_is_fields catalog_abcd 150 ["A"; "B"; "C"; "D"]).
  repeat (constructor; [reflexivity|]). constructor.
Defined.

(** C2. Three fields of width 100 and a budget of 150: no field is over the
    budget, and the planner returns [[A], [B, C]], whose second vchunk has
    a summed width of 200.  The running sum is set to 0, not to the width
    of the field that opens the new chunk. *)
Lemma vchunk_over_budget :
  let meta := catalog [("A", 100); ("B", 100); ("C", 100)] in
  get_meta_vchunks meta 150 ["A"; "B"; "C"] = Return [["A"]; ["B"; "C"]]
  ∧ Forall (λ f, width_of meta f ≤ 150) ["A"; "B"; "C"]
  ∧ chunk_width meta ["B"; "C"] = 200.
Proof.
  split; [reflexivity|]. split; [|reflexivity].
  repeat (constructor; [by vm_compute|]). constructor.
Qed.

(** C3. Widths A=100, C=500, D=30 and a budget of 150: the field C, alone
    over the budget, opens a chunk, and D is then placed in it with C. *)
Lemma over_budget_field_grouped :
  let meta := catalog [("A", 100); ("C", 500); ("D", 30)] in
  150 < width_of meta "C"
  ∧ get_meta_vchunks meta 150 ["A"; "C"; "D"] = Return [["A"]; ["C"; "D"]].
Proof. split; reflexivity. Qed.

(** C4. On the fields [A, B, C, D] of widths 100, 50, 500, 30 and the
    budget 150 the planner returns [[A, B], [C, D]], which is not
    [[A, B], [C], [D]]. *)
Lemma plan_abcd :
  get_meta_vchunks catalog_abcd 150 ["A"; "B"; "C"; "D"]
    = Return [["A"; "B"]; ["C"; "D"]]
  ∧ get_meta_vchunks catalog_abcd 150 ["A"; "B"; "C"; "D"]
    ≠ Return [["A"; "B"]; ["C"]; ["D"]].
Proof. split; [reflexivity|]. vm_compute. discriminate. Qed.

(** C5. A first field over the budget: the chunk closed in the loop is the
    empty initial one, and the planner returns [[], [C]]. *)
Lemma empty_vchunk_emitted :
  get_meta_vchunks (catalog [("C", 500)]) 150 ["C"] = Return [[]; ["C"]].
Proof. reflexivity. Qed.

(** * The row assembler *)

Section Assembler.
Variable env : Env.
Variables table_name where_ : string.
Variables ri n : Z.

Lemma length_parse DATA : length (parse DATA) = length DATA.
Proof. unfold parse. by rewrite length_fmap. Qed.

(** A chunk that is no longer than [data] from [idx] on is appended row
    by row; the rows of [data] beyond it are dropped. *)
Lemma append_columns_fits chunk : ∀ idx data,
  (idx + length chunk ≤ length data)%nat →
  append_columns idx data chunk = Return (zip_with app (drop idx data) chunk).
Proof.
  induction chunk as [|chunkrow rest IH]; intros idx data Hlen; simpl.
  - by destruct (drop idx data).
  - simpl in Hlen.
    destruct (lookup_lt_is_Some_2 data idx) as [row Hrow]; [lia|].
    rewrite Hrow, (IH (S idx) data) by lia. simpl.
    by rewrite (drop_S _ _ _ Hrow).
Qed.

(** A chunk that is longer than [data] runs off its end. *)
Lemma append_columns_overrun chunk : ∀ idx data,
  (idx ≤ length data)%nat →
  (length data < idx + length chunk)%nat →
  append_columns idx data chunk = Raise IndexError.
Proof.
  induction chunk as [|chunkrow rest IH]; intros idx data Hidx Hlen;
    simpl in *; [lia|].
  destruct (data !! idx) eqn:Hrow; [|done].
  apply lookup_lt_Some in Hrow. rewrite (IH (S idx) data) by lia. done.
Qed.

Lemma cells_at_cons i chunk chunks :
  cells_at i (chunk :: chunks) = default [] (chunk !! i) ++ cells_at i chunks.
Proof. reflexivity. Qed.

(** The passes after the first, when every answer has [m] rows. *)
Lemma read_loop_aligned m : ∀ vchunks DATAs st data fs,
  st_data st = Some data → st_fields st = Some fs → length data = m →
  length DATAs = length vchunks →
  (∀ j DATA, DATAs !! j = Some DATA →
     respond env (length (st_calls st) + j) = RfcReturns (Some DATA)
     ∧ length DATA = m) →
  ∃ st' data',
    read_loop env table_name where_ ri n vchunks st = Return st'
    ∧ st_fields st' = Some (fs ++ concat vchunks)
    ∧ st_data st' = Some data' ∧ length data' = m
    ∧ ∀ i, (i < m)%nat →
        data' !! i = Some (default [] (data !! i)
                           ++ cells_at i (parse <$> DATAs)).
Proof.
  intros vchunks.
  induction vchunks as [|vchunk rest IH];
    intros DATAs st data fs Hdata Hfs Hm Hlen Hresp.
  - destruct DATAs; [|discriminate]. exists st, data. simpl.
    rewrite app_nil_r. repeat split; try done.
    intros i Hi. destruct (lookup_lt_is_Some_2 data i) as [row ->]; [lia|].
    simpl. by rewrite app_nil_r.
  - destruct DATAs as [|DATA DATAs]; [discriminate|].
    destruct (Hresp 0%nat DATA eq_refl) as [Hr0 Hc0].
    rewrite Nat.add_0_r in Hr0. simpl. rewrite Hr0, Hdata.
    rewrite append_columns_fits by (rewrite length_parse; simpl; lia).
    simpl. rewrite drop_0, Hfs. simpl.
    edestruct (IH DATAs
                 {| st_data := Some (zip_with app data (parse DATA));
                    st_fields := Some (fs ++ vchunk);
                    st_calls := st_calls st
                                ++ [read_request table_name where_ vchunk n ri] |}
                 (zip_with app data (parse DATA)) (fs ++ vchunk))
      as (st' & data' & Hloop & Hfs' & Hdata' & Hm' & Hrows);
      try reflexivity.
    + rewrite length_zip_with, length_parse. lia.
    + simpl in Hlen. lia.
    + intros j D HD. simpl. rewrite length_app. simpl.
      destruct (Hresp (S j) D HD) as [Hr Hc]. split; [|done].
      rewrite <- Hr. f_equal. lia.
    + exists st', data'. rewrite Hloop, Hfs', Hdata'.
      repeat split; try done.
      * by rewrite <- app_assoc.
      * intros i Hi. rewrite (Hrows i Hi), lookup_zip_with.
        destruct (lookup_lt_is_Some_2 data i) as [row Hrow]; [lia|].
        destruct (lookup_lt_is_Some_2 (parse DATA) i) as [cells Hcells];
          [rewrite length_parse; lia|].
        rewrite ?fmap_cons, cells_at_cons, Hrow, Hcells. simpl.
        by rewrite <- app_assoc.
Qed.

(** C7. When the fetch of every vchunk returns rows, and all of them the
    same number [m] of rows, the loop ends with the field list that is the
    concatenation of the vchunks in their order, and with [m] rows; row [i]
    is the concatenation, in vchunk order, of the cells of row [i] of each
    partial row set. *)
Theorem read_loop_merges (vchunks : list (list string))
    (DATAs : list (list string)) (m : nat) :
  vchunks ≠ [] →
  length DATAs = length vchunks →
  (∀ k DATA, DATAs !! k = Some DATA →
     respond env k = RfcReturns (Some DATA)) →
  Forall (λ DATA, length DATA = m) DATAs →
  ∃ st data,
    read_loop env table_name where_ ri n vchunks asm_init = Return st
    ∧ st_fields st = Some (concat vchunks)
    ∧ st_data st = Some data ∧ length data = m
    ∧ ∀ i, (i < m)%nat → data !! i = Some (cells_at i (parse <$> DATAs)).
Proof.
  intros Hne Hlen Hresp Hcount.
  destruct vchunks as [|vchunk rest]; [done|].
  destruct DATAs as [|DATA DATAs]; [discriminate|].
  apply Forall_cons in Hcount as [Hm Hcount].
  simpl. rewrite (Hresp 0%nat DATA eq_refl). simpl.
  edestruct (read_loop_aligned m rest DATAs
               {| st_data := Some (parse DATA); st_fields := Some vchunk;
                  st_calls := [read_request table_name where_ vchunk n ri] |}
               (parse DATA) vchunk)
    as (st' & data' & Hloop & Hfs' & Hdata' & Hm' & Hrows);
    try reflexivity.
  - by rewrite length_parse.
  - simpl in Hlen. lia.
  - intros j D HD. simpl. split; [by apply (Hresp (S j))|].
    rewrite Forall_forall in Hcount. apply Hcount.
    by apply list_elem_of_lookup_2 with j.
  - exists st', data'. rewrite Hloop, Hfs', Hdata'. by repeat split.
Qed.
(** The passes after the first: once the answer to call [k] has more rows
    than the running row set can have, a pass raises. *)
Lemma read_loop_overrun k c0 : ∀ vchunks st data,
  st_data st = Some data → (length data ≤ c0)%nat →
  (length (st_calls st) ≤ k)%nat →
  (k < length (st_calls st) + length vchunks)%nat →
  (∀ j, (j ≤ k)%nat → has_data (respond env j)) →
  (c0 < row_count (respond env k))%nat →
  read_loop env table_name where_ ri n vchunks st = Raise IndexError.
Proof.
  intros vchunks.
  induction vchunks as [|vchunk rest IH];
    intros st data Hdata Hc0 Hlo Hhi Hresp Hk; simpl in *; [lia|].
  destruct (Hresp (length (st_calls st)) Hlo) as [DATA HDATA].
  rewrite HDATA, Hdata.
  destruct (decide (length data < length (parse DATA))%nat) as [Hlt|Hge].
  - rewrite append_columns_overrun; [done|lia|simpl; lia].
  - rewrite append_columns_fits by (simpl; lia). simpl. rewrite drop_0.
    assert (length (st_calls st) ≠ k) as Hnk.
    { intros Heq. rewrite <- Heq, HDATA in Hk. simpl in Hk.
      rewrite length_parse in Hge. lia. }
    apply (IH _ (zip_with app data (parse DATA))); simpl;
      rewrite ?length_app, ?length_zip_with; simpl; try done; lia.
Qed.

Variables sqlalchemy_cnxnstr output_tablename : option string.
Variable keep : bool.
Variable db : list (string * DataFrame).

(** C6, as the code has it. When the fetches up to that of a vchunk after
    the first return rows, and that vchunk's partial row set has more
    rows than the first one's, [read] raises IndexError and returns no
    dataset. *)
Theorem read_overrun_raises (vchunks : list (list string)) (k : nat) :
  (0 < k < length vchunks)%nat →
  (∀ j, (j ≤ k)%nat → has_data (respond env j)) →
  (row_count (respond env 0) < row_count (respond env k))%nat →
  read env table_name vchunks ri n where_
       sqlalchemy_cnxnstr output_tablename keep db = Raise IndexError.
Proof.
  intros [Hk0 Hk] Hresp Hmore.
  destruct vchunks as [|vchunk rest]; simpl in Hk; [lia|].
  destruct (Hresp 0%nat) as [DATA HDATA]; [lia|].
  unfold read. simpl. rewrite HDATA.
  rewrite (read_loop_overrun k (row_count (respond env 0)) rest _
             (parse DATA)); simpl; try done; try lia.
  rewrite HDATA, length_parse. simpl. lia.
Qed.

Lemma DataFrame_new_rows data columns df :
  DataFrame_new data columns = Return df →
  length (df_rows df) = length (default [] data).
Proof.
  unfold DataFrame_new.
  destruct data as [[|row rows]|]; try (intros [= <-]; done).
  destruct columns as [cols|].
  - destruct (decide _); intros [= <-]; simpl; by rewrite length_fmap.
  - intros [= <-]; simpl; by rewrite length_fmap.
Qed.

Lemma set_column_rows df label value :
  length (df_rows (set_column df label value)) = length (df_rows df).
Proof.
  unfold set_column. destruct (decide _); simpl; by rewrite length_fmap.
Qed.

(** C10. When the per-vchunk loop and the construction of the frame go
    through without an error, [read] called with [sqlalchemy_cnxnstr =
    None] and [keep] false returns STATUS 'FAIL', with the time stamp of
    the run and the number of assembled rows as COUNT, without a DATA
    entry, and nothing is written to the database. *)
Theorem read_unkept_status_FAIL (vchunks : list (list string))
    (st : AsmState) (df : DataFrame) :
  read_loop env table_name where_ ri n vchunks asm_init = Return st →
  DataFrame_new (st_data st) (st_fields st) = Return df →
  read env table_name vchunks ri n where_ None output_tablename false db
  = Return {| returned := {| STATUS := "FAIL"; TIMESTAMP := utcnow env;
                             COUNT := length (default [] (st_data st));
                             DATA := None |};
              called := st_calls st;
              stored := db |}.
Proof.
  intros Hloop Hdf. unfold read. rewrite Hloop. simpl. rewrite Hdf. simpl.
  by rewrite set_column_rows, (DataFrame_new_rows _ _ _ Hdf).
Qed.

(** C8, as the code has it. When the remote source answers the call for
    the first vchunk with no data, and the database takes the write if one
    is asked for, [read] returns without an error: COUNT is 0, the frame
    has no rows, and the call for the first vchunk is the only one made.
    STATUS is 'OK' when [sqlalchemy_cnxnstr] is given or [keep] is set. *)
Theorem read_no_data_first (vchunk : list string)
    (rest : list (list string)) :
  respond env 0 = RfcReturns None →
  (is_Some sqlalchemy_cnxnstr → db_accepts env = true) →
  ∃ run,
    read env table_name (vchunk :: rest) ri n where_
         sqlalchemy_cnxnstr output_tablename keep db = Return run
    ∧ COUNT (returned run) = 0%nat
    ∧ (∀ df, DATA (returned run) = Some df → df_rows df = [])
    ∧ called run = [read_request table_name where_ vchunk n ri]
    ∧ (is_Some sqlalchemy_cnxnstr ∨ keep = true →
       STATUS (returned run) = "OK").
Proof.
  intros Hresp Hdb. unfold read. simpl. rewrite Hresp. simpl.
  destruct sqlalchemy_cnxnstr as [cs|]; simpl.
  - unfold to_sql. rewrite Hdb by done. simpl.
    destruct keep; eexists; (split; [reflexivity|]); simpl;
      repeat split; try done; by intros df [= <-].
  - destruct keep; eexists; (split; [reflexivity|]); simpl;
      repeat split; try done.
    + by intros df [= <-].
    + intros [[? [=]]|[=]].
Qed.
End Assembler.

(** * The catalog *)

Section Catalog.
Variable meta0 : list MetaRow.
Variable sap_buffer_size : Z.

Lemma loc_LENG_row meta label w :
  loc_LENG meta label = Return w →
  ∃ r, r ∈ meta ∧ FIELDNAME r = label ∧ LENG r = w.
Proof.
  unfold loc_LENG.
  destruct (rows_at meta label) as [|r [|r' rs]] eqn:Hrows; try discriminate.
  intros [= <-]. exists r.
  assert (r ∈ rows_at meta label) as Hr by (rewrite Hrows; left).
  apply list_elem_of_filter in Hr as [Hname Hin]. done.
Qed.

Lemma plan_loop_known meta fields : ∀ st st',
  plan_loop meta sap_buffer_size st fields = Return st' →
  Forall (λ f, ∃ r, r ∈ meta ∧ FIELDNAME r = upper f) fields.
Proof.
  induction fields as [|field rest IH]; intros st st'; simpl; [done|].
  destruct (plan_step meta sap_buffer_size st field) as [st1|e] eqn:Hstep;
    simpl; [|discriminate].
  intros Hloop. constructor; [|by eapply IH].
  unfold plan_step in Hstep.
  destruct (loc_LENG meta (upper field)) as [w|e] eqn:Hw; [|discriminate].
  destruct (loc_LENG_row _ _ _ Hw) as (r & Hin & Hname & _). by exists r.
Qed.

(** C9, as the code has it. Whatever [get_meta] returns, the catalog in it
    is the frame without its rows of width 0 or less, in the order of the
    frame, and every field of a vchunk names a row of positive width.
    When no row is left and no field list is given, [get_meta] returns
    the empty catalog and no vchunk; it raises nothing. *)
Theorem get_meta_drops_nonpositive :
  (∀ fields md,
     get_meta meta0 fields sap_buffer_size = Return md →
     meta_csv md = drop_includes meta0
     ∧ (∀ r, r ∈ meta_csv md ↔ r ∈ meta0 ∧ 0 < LENG r)
     ∧ Forall (λ f, ∃ r, r ∈ meta0 ∧ FIELDNAME r = upper f ∧ 0 < LENG r)
              (concat (vchunks md)))
  ∧ (drop_includes meta0 = [] →
     get_meta meta0 None sap_buffer_size
     = Return {| meta_csv := []; vchunks := [] |}).
Proof.
  split.
  - intros fields md. unfold get_meta, get_meta_vchunks.
    destruct (plan_loop _ _ _ _) as [st|e] eqn:Hloop; simpl; [|discriminate].
    intros [= <-]. simpl. split; [done|]. split.
    + intros r. unfold drop_includes. rewrite list_elem_of_filter. tauto.
    + rewrite plan_close_placed, (plan_loop_placed _ _ _ _ _ Hloop). simpl.
      eapply Forall_impl; [by eapply plan_loop_known|].
      intros f (r & Hin & Hname). exists r.
      apply list_elem_of_filter in Hin as [Hpos Hin]. done.
  - intros Hnone. unfold get_meta. by rewrite Hnone.
Qed.
End Catalog.

(** * Runs on concrete inputs *)

Lemma get_meta_drops_nonpositive_mixed :
  (∀ r, r ∈ catalog [("MANDT", 3); ("MATNR", 18)]
        ↔ r ∈ catalog_mixed ∧ 0 < LENG r)
  ∧ get_meta catalog_include None 400
    = Return {| meta_csv := []; vchunks := [] |}.
Proof.
  split.
  - apply (proj1 (get_meta_drops_nonpositive catalog_mixed 400) None
             {| meta_csv := catalog [("MANDT", 3); ("MATNR", 18)];
                vchunks := [["MANDT"; "MATNR"]] |}).
    reflexivity.
  - apply (proj2 (get_meta_drops_nonpositive catalog_include 400)).
    reflexivity.
Defined.

(** C9 as stated fails: every row of the table has width 0, nothing is left
    after the filter, and [get_meta] returns a result. *)
Lemma get_meta_empty_catalog_returns :
  drop_includes catalog_include = []
  ∧ get_meta catalog_include None 400
    = Return {| meta_csv := []; vchunks := [] |}.
Proof. split; reflexivity. Qed.

Lemma read_loop_merges_aligned :
  ∃ st data,
    read_loop env_aligned "MARA" "" 0 10 [["A"; "B"]; ["C"]] asm_init
    = Return st
    ∧ st_fields st = Some (concat [["A"; "B"]; ["C"]])
    ∧ st_data st = Some data ∧ length data = 2%nat
    ∧ ∀ i, (i < 2)%nat →
        data !! i = Some (cells_at i (parse <$> [["a |b"; "c| d"]; ["x"; "y"]])).
Proof.
  apply (read_loop_merges env_aligned "MARA" "" 0 10 [["A"; "B"]; ["C"]]
           [["a |b"; "c| d"]; ["x"; "y"]] 2).
  - discriminate.
  - reflexivity.
  - intros [|[|k]] DATA; simpl; intros [= <-]; reflexivity.
  - repeat (constructor; [reflexivity|]). constructor.
Defined.

(** C6 as stated fails: the second vchunk's partial row set has one row,
    the first one's has two, and [read] returns a dataset of one row. *)
Lemma read_fewer_rows_returns :
  row_count (respond env_fewer 1) ≠ row_count (respond env_fewer 0)
  ∧ read env_fewer "MARA" [["A"; "B"]; ["C"]] 0 10 "" None None true []
    = Return
        {| returned :=
             {| STATUS := "OK"; TIMESTAMP := "2016-05-01 12:00:00";
                COUNT := 1;
                DATA := Some
                  {| df_columns := ["A"; "B"; "C"; "TIMESTAMP"];
                     df_rows := [[Some "a"; Some "b"; Some "x";
                                  Some "2016-05-01 12:00:00"]] |} |};
           called := [read_request "MARA" "" ["A"; "B"] 10 0;
                      read_request "MARA" "" ["C"] 10 0];
           stored := [] |}.
Proof. split; [by vm_compute|reflexivity]. Qed.

Lemma read_overrun_raises_more :
  read env_more "MARA" [["A"; "B"]; ["C"]] 0 10 "" None None true []
  = Raise IndexError.
Proof.
  apply (read_overrun_raises env_more "MARA" "" 0 10 None None true []
           [["A"; "B"]; ["C"]] 1).
  - simpl. lia.
  - intros [|[|j]] Hj; [eexists; reflexivity..|lia].
  - simpl. lia.
Defined.

(** C8 as stated fails: no data for the first vchunk, no database and
    [keep] false; [read] returns STATUS 'FAIL'. *)
Lemma read_no_data_status_FAIL :
  respond env_no_rows 0 = RfcReturns None
  ∧ read env_no_rows "MARA" [["A"; "B"]; ["C"]] 0 10 "" None None false []
    = Return
        {| returned :=
             {| STATUS := "FAIL"; TIMESTAMP := "2016-05-01 12:00:00";
                COUNT := 0; DATA := None |};
           called := [read_request "MARA" "" ["A"; "B"] 10 0];
           stored := [] |}.
Proof. split; reflexivity. Qed.

Lemma read_no_data_first_sqlite :
  ∃ run,
    read env_no_rows "MARA" [["A"; "B"]; ["C"]] 0 10 ""
         (Some "sqlite:////home/cks/db.sqlite") None false [] = Return run
    ∧ COUNT (returned run) = 0%nat
    ∧ (∀ df, DATA (returned run) = Some df → df_rows df = [])
    ∧ called run = [read_request "MARA" "" ["A"; "B"] 10 0]
    ∧ (is_Some (Some "sqlite:////home/cks/db.sqlite") ∨ false = true →
       STATUS (returned run) = "OK").
Proof.
  apply (read_no_data_first env_no_rows "MARA" "" 0 10
           (Some "sqlite:////home/cks/db.sqlite") None false []
           ["A"; "B"] [["C"]]).
  - reflexivity.
  - intros _. reflexivity.
Defined.

Lemma read_unkept_status_FAIL_aligned :
  read env_aligned "MARA" [["A"; "B"]; ["C"]] 0 10 "" None None false []
  = Return
      {| returned :=
           {| STATUS := "FAIL"; TIMESTAMP := "2016-05-01 12:00:00";
              COUNT := 2; DATA := None |};
         called := [read_request "MARA" "" ["A"; "B"] 10 0;
                    read_request "MARA" "" ["C"] 10 0];
         stored := [] |}.
Proof.
  apply (read_unkept_status_FAIL env_aligned "MARA" "" 0 10 None []
           [["A"; "B"]; ["C"]]
           {| st_data := Some [["a"; "b"; "x"]; ["c"; "d"; "y"]];
              st_fields := Some ["A"; "B"; "C"];
              st_calls := [read_request "MARA" "" ["A"; "B"] 10 0;
                           read_request "MARA" "" ["C"] 10 0] |}
           {| df_columns := ["A"; "B"; "C"];
              df_rows := [[Some "a"; Some "b"; Some "x"];
                          [Some "c"; Some "d"; Some "y"]] |}).
  - reflexivity.
  - reflexivity.
Defined.

(** * Further properties of the chunk planner *)

Section PlannerBounds.
Variable meta : list MetaRow.
Variable sap_buffer_size : Z.

Lemma wrap64_small z : - 2 ^ 63 ≤ z < 2 ^ 63 → wrap64 z = z.
Proof. intros Hz. unfold wrap64. rewrite Z.mod_small; lia. Qed.

Lemma chunk_width_snoc vchunk field :
  chunk_width meta (vchunk ++ [field])
  = chunk_width meta vchunk + width_of meta field.
Proof.
  unfold chunk_width. induction vchunk as [|f fs IH]; simpl; [lia|].
  rewrite IH. lia.
Qed.

Lemma tail_snoc {A} (l : list A) (x : A) : l ≠ [] → tail (l ++ [x]) = tail l ++ [x].
Proof. by destruct l. Qed.

(** The new chunks closed by the loop are not empty once the open chunk is
    not. *)
Lemma plan_loop_closed_nonempty fields : ∀ st st',
  st_chunk st ≠ [] →
  plan_loop meta sap_buffer_size st fields = Return st' →
  ∃ added, st_vchunks st' = st_vchunks st ++ added
           ∧ Forall (λ vc, vc ≠ []) added ∧ st_chunk st' ≠ [].
Proof.
  induction fields as [|field rest IH]; intros st st' Hopen; simpl.
  - intros [= <-]. exists []. by rewrite app_nil_r.
  - unfold plan_step.
    destruct (loc_LENG meta (upper field)) as [w|e]; simpl; [|discriminate].
    destruct (sap_buffer_size <? _); intros Hloop;
      apply IH in Hloop as (added & Hv & Hadded & Hopen'); simpl in *;
      try done.
    + exists (st_chunk st :: added). rewrite Hv, <- app_assoc.
      repeat split; try done. by constructor.
    + by exists added.
    + by destruct (st_chunk st).
Qed.

(** X1. Only the first vchunk can be empty: every vchunk after the first
    holds a field, and the first one is empty only when the first field
    alone is over the budget. *)
Theorem vchunks_tail_nonempty (fields : list string)
    (vcs : list (list string)) :
  get_meta_vchunks meta sap_buffer_size fields = Return vcs →
  Forall (λ vc, vc ≠ []) (tail vcs)
  ∧ (hd_error vcs = Some [] →
     ∃ f fs, fields = f :: fs
             ∧ sap_buffer_size < wrap64 (width_of meta f)).
Proof.
  unfold get_meta_vchunks. destruct fields as [|f fs]; simpl.
  { intros [= <-]. split; [constructor|discriminate]. }
  unfold plan_step.
  destruct (loc_LENG meta (upper f)) as [w|e] eqn:Hw; simpl; [|discriminate].
  assert (width_of meta f = w) as Hwidth by (unfold width_of; by rewrite Hw).
  rewrite Z.add_0_l.
  destruct (sap_buffer_size <? wrap64 w) eqn:Hover; simpl;
    match goal with
    | |- context [plan_loop ?m ?b ?s fs] =>
        destruct (plan_loop m b s fs) as [st|e] eqn:Hloop
    end; simpl; try discriminate; intros [= <-];
    apply plan_loop_closed_nonempty in Hloop as (added & Hv & Hadded & Hopen);
    try done; simpl in Hv; unfold plan_close; rewrite Hv;
    destruct (st_chunk st) as [|c cs] eqn:Hc; try done; simpl.
  - split.
    + apply Forall_app; split; [done|]. by repeat constructor.
    + intros _. exists f, fs. split; [done|]. rewrite Hwidth. lia.
  - destruct added as [|a added']; simpl.
    + split; [constructor|discriminate].
    + apply Forall_cons in Hadded as [Ha Hadded]. split.
      * apply Forall_app; split; [done|]. by repeat constructor.
      * by intros [= ->].
Qed.

Hypothesis budget_nonneg : 0 ≤ sap_buffer_size.
Hypothesis widths_in_range :
  ∀ r, r ∈ meta → 0 ≤ LENG r ∧ LENG r + sap_buffer_size < 2 ^ 63.

Lemma loc_LENG_in_range label w :
  loc_LENG meta label = Return w → 0 ≤ w ∧ w + sap_buffer_size < 2 ^ 63.
Proof.
  unfold loc_LENG.
  destruct (rows_at meta label) as [|r [|r' rs]] eqn:Hrows; try discriminate.
  intros [= <-]. apply widths_in_range.
  assert (r ∈ rows_at meta label) as Hr by (rewrite Hrows; left).
  by apply list_elem_of_filter in Hr as [_ Hin].
Qed.

Lemma width_of_nonneg field : 0 ≤ width_of meta field.
Proof.
  unfold width_of. destruct (loc_LENG meta (upper field)) eqn:Hw; [|lia].
  by apply loc_LENG_in_range in Hw as [? _].
Qed.

Lemma chunk_width_nonneg vchunk : 0 ≤ chunk_width meta vchunk.
Proof.
  unfold chunk_width. induction vchunk as [|f fs IH]; simpl; [lia|].
  pose proof (width_of_nonneg f). lia.
Qed.

Lemma chunk_width_tail vchunk :
  chunk_width meta (tail vchunk) ≤ chunk_width meta vchunk.
Proof.
  destruct vchunk as [|f fs]; simpl; [done|].
  pose proof (width_of_nonneg f). unfold chunk_width at 2. simpl.
  fold (chunk_width meta fs). lia.
Qed.

Lemma chunk_width_elem vchunk field :
  field ∈ vchunk → width_of meta field ≤ chunk_width meta vchunk.
Proof.
  induction vchunk as [|f fs IH]; [by intros ?%elem_of_nil|].
  unfold chunk_width. simpl. fold (chunk_width meta fs).
  pose proof (chunk_width_nonneg fs). pose proof (width_of_nonneg f).
  intros [->|Hin]%elem_of_cons; [lia|]. apply IH in Hin. lia.
Qed.

Lemma plan_step_inv st field st' :
  plan_inv meta sap_buffer_size st →
  plan_step meta sap_buffer_size st field = Return st' →
  plan_inv meta sap_buffer_size st'.
Proof.
  unfold plan_inv, plan_step. intros (Hclosed & Hhd & Hsum & Hopen).
  destruct (loc_LENG meta (upper field)) as [w|e] eqn:Hw; simpl;
    [|discriminate].
  assert (width_of meta field = w) as Hwidth by (unfold width_of; by rewrite Hw).
  apply loc_LENG_in_range in Hw as [Hw0 Hw1].
  rewrite wrap64_small by lia.
  destruct (sap_buffer_size <? st_chunksum st + w) eqn:Hover;
    intros [= <-]; simpl.
  - destruct (st_vchunks st) as [|v vs] eqn:Hv; simpl in *.
    + repeat split; try done; try lia.
      repeat constructor. pose proof (chunk_width_tail (st_chunk st)). lia.
    + destruct Hopen as [Hne Hopen]. repeat split; try done; try lia.
      apply (Forall_app _ (v :: vs) [st_chunk st]); split; [done|].
      repeat constructor. lia.
  - apply Z.ltb_ge in Hover.
    destruct (st_vchunks st) as [|v vs] eqn:Hv; simpl in *.
    + rewrite chunk_width_snoc, Hwidth. repeat split; try done; lia.
    + destruct Hopen as [Hne Hopen].
      rewrite tail_snoc, chunk_width_snoc, Hwidth by done.
      repeat split; try done; try lia. by destruct (st_chunk st).
Qed.

Lemma plan_loop_inv fields : ∀ st st',
  plan_inv meta sap_buffer_size st →
  plan_loop meta sap_buffer_size st fields = Return st' →
  plan_inv meta sap_buffer_size st'.
Proof.
  induction fields as [|field rest IH]; intros st st' Hinv; simpl.
  - by intros [= <-].
  - destruct (plan_step meta sap_buffer_size st field) as [st1|e] eqn:Hstep;
      simpl; [|discriminate].
    apply IH. by eapply plan_step_inv.
Qed.

Lemma plan_close_bounded st :
  plan_inv meta sap_buffer_size st →
  Forall (λ vc, chunk_width meta (tail vc) ≤ sap_buffer_size) (plan_close st)
  ∧ chunk_width meta (hd [] (plan_close st)) ≤ sap_buffer_size.
Proof.
  unfold plan_inv, plan_close. intros (Hclosed & Hhd & Hsum & Hopen).
  destruct (st_chunk st) as [|c cs] eqn:Hc.
  - destruct (st_vchunks st) as [|v vs]; [|by destruct Hopen].
    split; [constructor|]. simpl. done.
  - split; [|done]. apply Forall_app; split; [done|]. repeat constructor.
    destruct (st_vchunks st) as [|v vs].
    + pose proof (chunk_width_tail (c :: cs)). lia.
    + destruct Hopen as [_ Hopen]. lia.
Qed.

Lemma plan_init_inv : plan_inv meta sap_buffer_size plan_init.
Proof. unfold plan_inv, plan_init. simpl. repeat split; try done. Qed.

(** X2. The width bound the loop keeps. With a budget that is not negative
    and catalog widths that are not negative and small enough for the sum
    not to wrap, the fields of a vchunk after its first one sum to at most
    the budget, and the first vchunk as a whole sums to at most the
    budget. *)
Theorem vchunks_tail_within_budget (fields : list string)
    (vcs : list (list string)) :
  get_meta_vchunks meta sap_buffer_size fields = Return vcs →
  Forall (λ vc, chunk_width meta (tail vc) ≤ sap_buffer_size) vcs
  ∧ chunk_width meta (hd [] vcs) ≤ sap_buffer_size.
Proof.
  unfold get_meta_vchunks.
  destruct (plan_loop _ _ _ fields) as [st|e] eqn:Hloop; simpl;
    [|discriminate].
  intros [= <-]. apply plan_close_bounded.
  eapply plan_loop_inv; [apply plan_init_inv|done].
Qed.

(** X3. Under the same conditions a field wider than the budget is never
    placed behind another field: in every vchunk the fields after the first
    are each within the budget. *)
Theorem over_budget_field_opens_vchunk (fields : list string)
    (vcs : list (list string)) (vc : list string) (field : string) :
  get_meta_vchunks meta sap_buffer_size fields = Return vcs →
  vc ∈ vcs → field ∈ tail vc →
  width_of meta field ≤ sap_buffer_size.
Proof.
  unfold get_meta_vchunks.
  destruct (plan_loop _ _ _ fields) as [st|e] eqn:Hloop; simpl;
    [|discriminate].
  intros [= <-] Hvc Hfield.
  assert (plan_inv meta sap_buffer_size st) as Hinv
    by (eapply plan_loop_inv; [apply plan_init_inv|done]).
  apply plan_close_bounded in Hinv as [Hall _].
  rewrite Forall_forall in Hall. specialize (Hall vc Hvc).
  pose proof (chunk_width_elem _ _ Hfield). lia.
Qed.
Lemma plan_loop_single fields : ∀ st,
  st_vchunks st = [] →
  0 ≤ st_chunksum st →
  st_chunksum st + chunk_width meta fields ≤ sap_buffer_size →
  Forall (λ f, length (rows_at meta (upper f)) = 1%nat) fields →
  ∃ st', plan_loop meta sap_buffer_size st fields = Return st'
         ∧ st_vchunks st' = [] ∧ st_chunk st' = st_chunk st ++ fields.
Proof.
  induction fields as [|field rest IH]; intros st Hv Hsum0 Hsum Hall; simpl.
  - exists st. by rewrite app_nil_r.
  - apply Forall_cons in Hall as [Hf Hrest].
    unfold chunk_width in Hsum. simpl in Hsum. fold (chunk_width meta rest) in Hsum.
    pose proof (chunk_width_nonneg rest) as Hrest0.
    unfold plan_step.
    destruct (loc_LENG_unique meta _ Hf) as [w Hw]. rewrite Hw. simpl.
    assert (width_of meta field = w) as Hwidth
      by (unfold width_of; by rewrite Hw).
    apply loc_LENG_in_range in Hw as [Hw0 Hw1]. rewrite Hwidth in Hsum.
    rewrite wrap64_small by lia.
    destruct (sap_buffer_size <? st_chunksum st + w) eqn:Hover;
      [apply Z.ltb_lt in Hover; lia|].
    destruct (IH {| st_vchunks := st_vchunks st;
                    st_chunksum := st_chunksum st + w;
                    st_chunk := st_chunk st ++ [field] |})
      as (st' & Hloop & Hv' & Hc'); simpl; try done; try lia.
    exists st'. simpl in Hc'. rewrite <- app_assoc in Hc'. done.
Qed.

(** X4. Under the same conditions, a field list whose widths sum to at
    most the budget, every field naming one catalog row, is returned as a
    single vchunk. *)
Theorem fields_within_budget_one_vchunk (fields : list string) :
  fields ≠ [] →
  Forall (λ f, length (rows_at meta (upper f)) = 1%nat) fields →
  chunk_width meta fields ≤ sap_buffer_size →
  get_meta_vchunks meta sap_buffer_size fields = Return [fields].
Proof.
  intros Hne Hall Hsum. unfold get_meta_vchunks.
  destruct (plan_loop_single fields plan_init) as (st & Hloop & Hv & Hc);
    simpl; try done.
  rewrite Hloop. simpl. unfold plan_close. rewrite Hv, Hc. simpl.
  by destruct fields.
Qed.
End PlannerBounds.

Section PlannerErrors.
Variable meta : list MetaRow.
Variable sap_buffer_size : Z.

Lemma plan_loop_unique fields : ∀ st st',
  plan_loop meta sap_buffer_size st fields = Return st' →
  Forall (λ f, length (rows_at meta (upper f)) = 1%nat) fields.
Proof.
  induction fields as [|field rest IH]; intros st st'; simpl; [done|].
  destruct (plan_step meta sap_buffer_size st field) as [st1|e] eqn:Hstep;
    simpl; [|discriminate].
  intros Hloop. constructor; [|by eapply IH].
  unfold plan_step, loc_LENG in Hstep.
  by destruct (rows_at meta (upper field)) as [|r [|r' rs]].
Qed.

Lemma plan_loop_raises fields : ∀ st e,
  plan_loop meta sap_buffer_size st fields = Raise e →
  e = KeyError ∨ e = ValueError.
Proof.
  induction fields as [|field rest IH]; intros st e; simpl; [discriminate|].
  destruct (plan_step meta sap_buffer_size st field) as [st1|e1] eqn:Hstep;
    simpl; [by apply IH|].
  intros [= <-]. unfold plan_step, loc_LENG in Hstep.
  destruct (rows_at meta (upper field)) as [|r [|r' rs]]; simpl in Hstep.
  - left. congruence.
  - by destruct (sap_buffer_size <? _).
  - right. congruence.
Qed.

(** X5. The planner returns exactly when every field of the list, in upper
    case, is the label of one and only one catalog row; when it does not
    return it raises KeyError or ValueError. *)
Theorem vchunks_returned_iff (fields : list string) :
  (returns (get_meta_vchunks meta sap_buffer_size fields)
   ↔ Forall (λ f, length (rows_at meta (upper f)) = 1%nat) fields)
  ∧ (∀ e, get_meta_vchunks meta sap_buffer_size fields = Raise e →
          e = KeyError ∨ e = ValueError).
Proof.
  unfold get_meta_vchunks. split; [split|].
  - intros [vcs Hvcs].
    destruct (plan_loop _ _ _ fields) as [st|e] eqn:Hloop; [|discriminate].
    by eapply plan_loop_unique.
  - intros Hall.
    destruct (plan_loop_returns meta sap_buffer_size fields plan_init Hall)
      as [st ->].
    by eexists.
  - intros e.
    destruct (plan_loop _ _ _ fields) as [st|e'] eqn:Hloop; [discriminate|].
    intros [= <-]. by eapply plan_loop_raises.
Qed.

Lemma plan_loop_KeyError fields : ∀ st,
  Forall (λ f, (length (rows_at meta (upper f)) ≤ 1)%nat) fields →
  Exists (λ f, rows_at meta (upper f) = []) fields →
  plan_loop meta sap_buffer_size st fields = Raise KeyError.
Proof.
  induction fields as [|field rest IH]; intros st Hall Hex; simpl.
  - by apply Exists_nil in Hex.
  - apply Forall_cons in Hall as [Hf Hrest].
    unfold plan_step, loc_LENG.
    destruct (rows_at meta (upper field)) as [|r [|r' rs]] eqn:Hrows;
      simpl in *; [done| |lia].
    apply Exists_cons in Hex as [Hex|Hex]; [simpl in Hex; congruence|].
    destruct (sap_buffer_size <? _); simpl; by apply IH.
Qed.

Lemma rows_at_absent (rows : list MetaRow) label :
  label ∉ FIELDNAME <$> rows → rows_at rows label = [].
Proof.
  unfold rows_at. induction rows as [|r rows IH]; [done|].
  rewrite fmap_cons, not_elem_of_cons. intros [Hne Hnot].
  rewrite filter_cons. destruct (decide _); [congruence|by apply IH].
Qed.

Lemma rows_at_NoDup (rows : list MetaRow) label :
  NoDup (FIELDNAME <$> rows) → (length (rows_at rows label) ≤ 1)%nat.
Proof.
  unfold rows_at. induction rows as [|r rows IH]; [simpl; lia|].
  rewrite fmap_cons, NoDup_cons. intros [Hnot Hnodup].
  rewrite filter_cons. destruct (decide _) as [<-|]; [|by apply IH].
  fold (rows_at rows (FIELDNAME r)). by rewrite rows_at_absent.
Qed.

Lemma rows_at_present (rows : list MetaRow) r :
  NoDup (FIELDNAME <$> rows) → r ∈ rows →
  rows_at rows (FIELDNAME r) = [r].
Proof.
  unfold rows_at. induction rows as [|r' rows IH]; [by intros _ ?%elem_of_nil|].
  rewrite fmap_cons, NoDup_cons. intros [Hnot Hnodup].
  rewrite filter_cons. intros [->|Hin]%elem_of_cons.
  - rewrite decide_True by done.
    fold (rows_at rows (FIELDNAME r')). by rewrite rows_at_absent.
  - destruct (decide _) as [Heq|]; [|by apply IH].
    exfalso. apply Hnot. rewrite Heq. by apply list_elem_of_fmap_2.
Qed.

Lemma drop_includes_NoDup (rows : list MetaRow) :
  NoDup (FIELDNAME <$> rows) → NoDup (FIELDNAME <$> drop_includes rows).
Proof.
  unfold drop_includes. induction rows as [|r rows IH]; [done|].
  rewrite fmap_cons, NoDup_cons. intros [Hnot Hnodup].
  rewrite filter_cons. destruct (decide _); [|by apply IH].
  rewrite fmap_cons, NoDup_cons. split; [|by apply IH].
  intros (r' & Heq & Hin)%list_elem_of_fmap.
  apply list_elem_of_filter in Hin as [_ Hin].
  apply Hnot. rewrite Heq. by apply list_elem_of_fmap_2.
Qed.
End PlannerErrors.

Section CatalogRequests.
Variable meta0 : list MetaRow.
Variable sap_buffer_size : Z.

(** X6. With distinct names in the metadata, asking [get_meta] for a
    field whose row has a width of 0 or less raises KeyError: the row was
    dropped from the catalog. *)
Theorem get_meta_dropped_field_KeyError (fields : list string)
    (field : string) (r : MetaRow) :
  NoDup (FIELDNAME <$> meta0) →
  r ∈ meta0 → LENG r ≤ 0 → FIELDNAME r = upper field → field ∈ fields →
  get_meta meta0 (Some fields) sap_buffer_size = Raise KeyError.
Proof.
  intros Hnodup Hr Hwidth Hname Hfield. unfold get_meta, get_meta_vchunks.
  rewrite (plan_loop_KeyError (drop_includes meta0)); [done| |].
  - apply Forall_forall. intros f _.
    by apply rows_at_NoDup, drop_includes_NoDup.
  - apply Exists_exists. exists field. split; [done|].
    destruct (rows_at (drop_includes meta0) (upper field)) as [|r' rs] eqn:Hrows;
      [done|].
    assert (r' ∈ rows_at (drop_includes meta0) (upper field)) as Hr'
      by (rewrite Hrows; left).
    apply list_elem_of_filter in Hr' as [Hname' Hin'].
    apply list_elem_of_filter in Hin' as [Hpos Hin'].
    pose proof (rows_at_present meta0 r Hnodup Hr) as Hone.
    assert (r' ∈ rows_at meta0 (FIELDNAME r)) as Hr'r.
    { apply list_elem_of_filter. split; [congruence|done]. }
    rewrite Hone in Hr'r. apply list_elem_of_singleton in Hr'r as ->. lia.
Qed.

(** X7. Without a field list, and with kept rows whose names are distinct
    and in upper case, [get_meta] returns: the catalog is the kept rows and
    the vchunks hold the names of the kept rows, in the order of the
    metadata. *)
Theorem get_meta_all_fields :
  NoDup (index_tolist (drop_includes meta0)) →
  Forall (λ r, upper (FIELDNAME r) = FIELDNAME r) (drop_includes meta0) →
  ∃ vcs,
    get_meta meta0 None sap_buffer_size
    = Return {| meta_csv := drop_includes meta0; vchunks := vcs |}
    ∧ concat vcs = index_tolist (drop_includes meta0).
Proof.
  intros Hnodup Hupper. unfold get_meta, get_meta_vchunks.
  assert (Forall (λ f, length (rows_at (drop_includes meta0) (upper f))
                       = 1%nat) (index_tolist (drop_includes meta0))) as Hall.
  { unfold index_tolist. apply Forall_fmap, Forall_forall. intros r Hr.
    rewrite Forall_forall in Hupper. simpl. rewrite (Hupper r Hr).
    by rewrite rows_at_present. }
  destruct (plan_loop_returns _ sap_buffer_size _ plan_init Hall) as [st Hst].
  rewrite Hst. simpl. eexists; split; [reflexivity|].
  by rewrite plan_close_placed, (plan_loop_placed _ _ _ _ _ Hst).
Qed.
End CatalogRequests.

Section PlannerCase.
Variable meta : list MetaRow.
Variable sap_buffer_size : Z.

Lemma upper_char_idemp c : upper_char (upper_char c) = upper_char c.
Proof. destruct c as [[] [] [] [] [] [] [] []]; reflexivity. Qed.

Lemma upper_idemp s : upper (upper s) = upper s.
Proof.
  induction s as [|c s IH]; simpl; [done|].
  by rewrite upper_char_idemp, IH.
Qed.

Lemma plan_step_upper st field st' :
  plan_step meta sap_buffer_size st field = Return st' →
  plan_step meta sap_buffer_size (upper_state st) (upper field)
  = Return (upper_state st').
Proof.
  unfold plan_step. rewrite upper_idemp.
  destruct (loc_LENG meta (upper field)) as [w|e]; simpl; [|discriminate].
  destruct (sap_buffer_size <? _); intros [= <-]; unfold upper_state; simpl;
    by rewrite fmap_app.
Qed.

Lemma plan_loop_upper fields : ∀ st st',
  plan_loop meta sap_buffer_size st fields = Return st' →
  plan_loop meta sap_buffer_size (upper_state st) (upper <$> fields)
  = Return (upper_state st').
Proof.
  induction fields as [|field rest IH]; intros st st'; simpl.
  - by intros [= <-].
  - destruct (plan_step meta sap_buffer_size st field) as [st1|e] eqn:Hstep;
      simpl; [|discriminate].
    intros Hloop. rewrite (plan_step_upper _ _ _ Hstep). simpl. by apply IH.
Qed.

(** X8. Field names are matched without regard to case: the vchunks
    returned for the names in upper case are those returned for the names
    as given, put in upper case. *)
Theorem vchunks_case_insensitive (fields : list string)
    (vcs : list (list string)) :
  get_meta_vchunks meta sap_buffer_size fields = Return vcs →
  get_meta_vchunks meta sap_buffer_size (upper <$> fields)
  = Return ((λ vc : list string, upper <$> vc) <$> vcs).
Proof.
  unfold get_meta_vchunks.
  destruct (plan_loop _ _ _ fields) as [st|e] eqn:Hloop; simpl;
    [|discriminate].
  intros [= <-]. apply plan_loop_upper in Hloop.
  change (upper_state plan_init) with plan_init in Hloop. rewrite Hloop.
  simpl. f_equal. unfold plan_close, upper_state. simpl.
  destruct (st_chunk st); simpl; [done|]. by rewrite fmap_app.
Qed.
End PlannerCase.

(** * Parsing the rows of a response *)

Section Parsing.

Lemma split_bar_no_bar s : no_bar s = true → split_bar s = [s].
Proof.
  induction s as [|c s IH]; simpl; [done|].
  intros [Hc Hs]%andb_prop. apply negb_true_iff in Hc. rewrite Hc.
  by rewrite IH.
Qed.

Lemma split_bar_app_bar cell rest :
  no_bar cell = true →
  split_bar (String.append cell (String "|" rest)) = cell :: split_bar rest.
Proof.
  induction cell as [|c cell IH]; simpl; [done|].
  intros [Hc Hs]%andb_prop. apply negb_true_iff in Hc. rewrite Hc.
  by rewrite IH.
Qed.

(** X9. Splitting at the delimiter undoes joining with it: cells without
    a [|] in them, joined into one line, are the cells [split] returns. *)
Theorem split_bar_join_bar (cells : list string) :
  cells ≠ [] →
  Forall (λ cell, no_bar cell = true) cells →
  split_bar (join_bar cells) = cells.
Proof.
  induction cells as [|cell rest IH]; [done|]. intros _ Hall.
  apply Forall_cons in Hall as [Hcell Hrest].
  destruct rest as [|cell' rest'].
  - simpl. by apply split_bar_no_bar.
  - change (join_bar (cell :: cell' :: rest'))
      with (String.append cell (String "|" (join_bar (cell' :: rest')))).
    rewrite split_bar_app_bar by done. by rewrite IH.
Qed.

Lemma rstrip_cons c s :
  rstrip (String c s)
  = match rstrip s with
    | EmptyString => if is_space c then EmptyString else String c EmptyString
    | String c' r => String c (String c' r)
    end.
Proof. simpl. by destruct (rstrip s). Qed.

Lemma ends_space_rstrip s : ends_space (rstrip s) = false.
Proof.
  induction s as [|c s IH]; [done|]. rewrite rstrip_cons.
  destruct (rstrip s) as [|c' r].
  - destruct (is_space c) eqn:Hc; simpl; done.
  - done.
Qed.

Lemma starts_space_lstrip s : starts_space (lstrip s) = false.
Proof.
  induction s as [|c s IH]; simpl; [done|].
  destruct (is_space c) eqn:Hc; simpl; done.
Qed.

Lemma ends_space_lstrip s : ends_space s = false → ends_space (lstrip s) = false.
Proof.
  induction s as [|c s IH]; [done|]. intros Hs.
  change (lstrip (String c s)) with (if is_space c then lstrip s else String c s).
  destruct (is_space c) eqn:Hc; [|done].
  destruct s as [|c' s']; [done|]. apply IH. exact Hs.
Qed.

Lemma rstrip_fixed s : ends_space s = false → rstrip s = s.
Proof.
  induction s as [|c s IH]; [done|]. rewrite rstrip_cons.
  destruct s as [|c' s'].
  - simpl. by intros ->.
  - intros Hs. rewrite IH by done. done.
Qed.

Lemma lstrip_fixed s : starts_space s = false → lstrip s = s.
Proof. destruct s as [|c s]; simpl; [done|]. by intros ->. Qed.

(** X10. [strip] leaves alone exactly the strings that neither begin nor
    end with white space; in particular stripping twice is stripping
    once. *)
Theorem strip_fixed_iff (s : string) :
  (strip s = s ↔ starts_space s = false ∧ ends_space s = false)
  ∧ strip (strip s) = strip s.
Proof.
  assert (starts_space (strip s) = false ∧ ends_space (strip s) = false)
    as Hstripped.
  { unfold strip. split; [apply starts_space_lstrip|].
    apply ends_space_lstrip, ends_space_rstrip. }
  assert (∀ t, starts_space t = false ∧ ends_space t = false → strip t = t)
    as Hfixed.
  { intros t [Hl Hr]. unfold strip. rewrite rstrip_fixed by done.
    by apply lstrip_fixed. }
  split; [split|].
  - intros <-. done.
  - apply Hfixed.
  - by apply Hfixed.
Qed.

(** X11. No cell of a parsed response begins or ends with white space, and
    a response of [k] rows is parsed into [k] rows of at least one cell. *)
Theorem parse_cells_stripped (DATA : list string) :
  length (parse DATA) = length DATA
  ∧ Forall (λ row, row ≠ []
                   ∧ Forall (λ cell, starts_space cell = false
                                     ∧ ends_space cell = false) row)
           (parse DATA).
Proof.
  split; [unfold parse; by rewrite length_fmap|].
  unfold parse. apply Forall_fmap, Forall_forall. intros WA _. simpl. split.
  - destruct WA as [|c WA]; simpl; [done|].
    destruct (Ascii.eqb c "|"); [done|]. by destruct (split_bar WA).
  - apply Forall_fmap, Forall_forall. intros cell _. simpl.
    unfold strip. split; [apply starts_space_lstrip|].
    apply ends_space_lstrip, ends_space_rstrip.
Qed.
End Parsing.

(** * Further properties of read *)

Section ReadRuns.
Variable env : Env.
Variables table_name where_ : string.
Variables ri n : Z.

Lemma read_loop_calls : ∀ vchunks st st',
  read_loop env table_name where_ ri n vchunks st = Return st' →
  ∃ k, (k ≤ length vchunks)%nat
       ∧ st_calls st'
         = st_calls st
           ++ ((λ vchunk, read_request table_name where_ vchunk n ri)
               <$> take k vchunks).
Proof.
  intros vchunks.
  induction vchunks as [|vchunk rest IH]; intros st st'; simpl.
  - intros [= <-]. exists 0%nat. by rewrite app_nil_r.
  - destruct (respond env (length (st_calls st))) as [|[DATA|]];
      [discriminate| |].
    + destruct (st_data st) as [data|].
      * destruct (append_columns 0 data (parse DATA)) as [data'|e]; simpl;
          [|discriminate].
        intros (k & Hk & Hcalls)%IH. exists (S k). split; [lia|].
        rewrite Hcalls. simpl. by rewrite <- app_assoc.
      * intros (k & Hk & Hcalls)%IH. exists (S k). split; [lia|].
        rewrite Hcalls. simpl. by rewrite <- app_assoc.
    + intros [= <-]. exists 1%nat. split; [lia|]. simpl. by rewrite ?take_0.
Qed.

(** The loop over a list of vchunks that all get rows continues with the
    vchunks that follow. *)
Lemma read_loop_app : ∀ pre st st1,
  (∀ j, (j < length pre)%nat →
        has_data (respond env (length (st_calls st) + j))) →
  read_loop env table_name where_ ri n pre st = Return st1 →
  (∀ rest, read_loop env table_name where_ ri n (pre ++ rest) st
           = read_loop env table_name where_ ri n rest st1)
  ∧ length (st_calls st1) = (length (st_calls st) + length pre)%nat.
Proof.
  intros pre.
  induction pre as [|vchunk pre IH]; intros st st1 Hdata; simpl.
  - intros [= <-]. split; [done|lia].
  - destruct (Hdata 0%nat) as [DATA HDATA]; [simpl; lia|].
    rewrite Nat.add_0_r in HDATA. rewrite HDATA.
    assert (∀ s, length (st_calls s) = S (length (st_calls st)) →
                 ∀ j, (j < length pre)%nat →
                      has_data (respond env (length (st_calls s) + j)))
      as Hnext.
    { intros s Hs j Hj. rewrite Hs.
      replace (S (length (st_calls st)) + j)%nat
        with (length (st_calls st) + S j)%nat by lia.
      apply Hdata. simpl. lia. }
    destruct (st_data st) as [data|].
    + destruct (append_columns 0 data (parse DATA)) as [data'|e]; simpl;
        [|discriminate].
      intros Hloop. apply IH in Hloop as [Happ Hlen].
      * split; [done|]. rewrite Hlen. simpl. rewrite length_app. simpl. lia.
      * apply Hnext. simpl. rewrite length_app. simpl. lia.
    + intros Hloop. apply IH in Hloop as [Happ Hlen].
      * split; [done|]. rewrite Hlen. simpl. rewrite length_app. simpl. lia.
      * apply Hnext. simpl. rewrite length_app. simpl. lia.
Qed.

Lemma descending_last_count m DATAs :
  descending m DATAs → (last_count m DATAs ≤ m)%nat.
Proof.
  unfold last_count. revert m.
  induction DATAs as [|DATA rest IH]; intros m; simpl; [lia|].
  intros [Hle Hrest]. apply IH in Hrest. lia.
Qed.

(** The passes after the first, when no partial row set has more rows than
    the one before. *)
Lemma read_loop_descending : ∀ vchunks DATAs st data fs,
  st_data st = Some data → st_fields st = Some fs →
  length DATAs = length vchunks →
  (∀ j DATA, DATAs !! j = Some DATA →
     respond env (length (st_calls st) + j) = RfcReturns (Some DATA)) →
  descending (length data) DATAs →
  ∃ st' data',
    read_loop env table_name where_ ri n vchunks st = Return st'
    ∧ st_fields st' = Some (fs ++ concat vchunks)
    ∧ st_data st' = Some data'
    ∧ length data' = last_count (length data) DATAs
    ∧ ∀ i, (i < length data')%nat →
        data' !! i = Some (default [] (data !! i)
                           ++ cells_at i (parse <$> DATAs)).
Proof.
  intros vchunks.
  induction vchunks as [|vchunk rest IH];
    intros DATAs st data fs Hdata Hfs Hlen Hresp Hdesc.
  - destruct DATAs; [|discriminate]. exists st, data. simpl.
    rewrite app_nil_r. repeat split; try done.
    intros i Hi. destruct (lookup_lt_is_Some_2 data i) as [row ->]; [lia|].
    simpl. by rewrite app_nil_r.
  - destruct DATAs as [|DATA DATAs]; [discriminate|].
    destruct Hdesc as [Hle Hdesc].
    pose proof (Hresp 0%nat DATA eq_refl) as Hr0.
    rewrite Nat.add_0_r in Hr0. simpl. rewrite Hr0, Hdata.
    rewrite append_columns_fits by (rewrite length_parse; simpl; lia).
    simpl. rewrite drop_0, Hfs. simpl.
    assert (length (zip_with app data (parse DATA)) = length DATA) as Hzip
      by (rewrite length_zip_with, length_parse; lia).
    edestruct (IH DATAs
                 {| st_data := Some (zip_with app data (parse DATA));
                    st_fields := Some (fs ++ vchunk);
                    st_calls := st_calls st
                                ++ [read_request table_name where_ vchunk n ri] |}
                 (zip_with app data (parse DATA)) (fs ++ vchunk))
      as (st' & data' & Hloop & Hfs' & Hdata' & Hm' & Hrows);
      try reflexivity.
    + simpl in Hlen. lia.
    + intros j D HD. simpl. rewrite length_app. simpl.
      rewrite <- (Hresp (S j) D HD). f_equal. lia.
    + by rewrite Hzip.
    + rewrite Hzip in Hm'.
      exists st', data'. rewrite Hloop, Hfs', Hdata'.
      repeat split; try done.
      * by rewrite <- app_assoc.
      * intros i Hi. rewrite (Hrows i Hi), lookup_zip_with.
        pose proof (descending_last_count _ _ Hdesc) as Hlast.
        destruct (lookup_lt_is_Some_2 data i) as [row Hrow]; [lia|].
        destruct (lookup_lt_is_Some_2 (parse DATA) i) as [cells Hcells];
          [rewrite length_parse; lia|].
        rewrite ?fmap_cons, cells_at_cons, Hrow, Hcells. simpl.
        by rewrite <- app_assoc.
Qed.

(** X12. Silent truncation. When every vchunk gets rows and no partial row
    set has more rows than the one before it, the loop returns; it keeps as
    many rows as the last partial row set has, each the concatenation of
    that row's cells across the vchunks, and drops the rows beyond. *)
Theorem read_loop_truncates (vchunk : list string)
    (rest : list (list string)) (DATA : list string)
    (DATAs : list (list string)) :
  length DATAs = length rest →
  (∀ k D, (DATA :: DATAs) !! k = Some D →
          respond env k = RfcReturns (Some D)) →
  descending (length DATA) DATAs →
  ∃ st data,
    read_loop env table_name where_ ri n (vchunk :: rest) asm_init = Return st
    ∧ st_fields st = Some (concat (vchunk :: rest))
    ∧ st_data st = Some data
    ∧ length data = last_count (length DATA) DATAs
    ∧ ∀ i, (i < length data)%nat →
        data !! i = Some (cells_at i (parse <$> DATA :: DATAs)).
Proof.
  intros Hlen Hresp Hdesc.
  simpl. rewrite (Hresp 0%nat DATA eq_refl). simpl.
  edestruct (read_loop_descending rest DATAs
               {| st_data := Some (parse DATA); st_fields := Some vchunk;
                  st_calls := [read_request table_name where_ vchunk n ri] |}
               (parse DATA) vchunk)
    as (st' & data' & Hloop & Hfs' & Hdata' & Hm' & Hrows);
    try reflexivity; try done.
  - intros j D HD. simpl. by apply (Hresp (S j)).
  - by rewrite length_parse.
  - rewrite length_parse in Hm'.
    exists st', data'. rewrite Hloop, Hfs', Hdata'. by repeat split.
Qed.

Variables sqlalchemy_cnxnstr output_tablename : option string.
Variable keep : bool.
Variable db : list (string * DataFrame).

(** What a run of [read] that returns is made of. *)
Lemma read_Return_inv vchunks run :
  read env table_name vchunks ri n where_
       sqlalchemy_cnxnstr output_tablename keep db = Return run →
  ∃ st df0,
    read_loop env table_name where_ ri n vchunks asm_init = Return st
    ∧ DataFrame_new (st_data st) (st_fields st) = Return df0
    ∧ (is_Some sqlalchemy_cnxnstr → db_accepts env = true)
    ∧ run
      = {| returned :=
             {| STATUS := if bool_decide (is_Some sqlalchemy_cnxnstr) || keep
                          then "OK" else "FAIL";
                TIMESTAMP := utcnow env;
                COUNT := length (df_rows
                                   (set_column df0 "TIMESTAMP" (utcnow env)));
                DATA := if keep
                        then Some (set_column df0 "TIMESTAMP" (utcnow env))
                        else None |};
           called := st_calls st;
           stored :=
             match sqlalchemy_cnxnstr with
             | Some _ =>
                 db ++ [(sink_table table_name output_tablename,
                         set_column df0 "TIMESTAMP" (utcnow env))]
             | None => db
             end |}.
Proof.
  unfold read.
  destruct (read_loop _ _ _ _ _ vchunks asm_init) as [st|e] eqn:Hloop; simpl;
    [|discriminate].
  destruct (DataFrame_new (st_data st) (st_fields st)) as [df0|e] eqn:Hdf;
    simpl; [|discriminate].
  destruct sqlalchemy_cnxnstr as [cs|]; simpl.
  - unfold to_sql. destruct (db_accepts env); simpl; [|discriminate].
    intros [= <-]. exists st, df0. do 3 (split; [done|]).
    unfold sink_table. by destruct keep.
  - intros [= <-]. exists st, df0. do 2 (split; [done|]).
    split; [by intros [? [=]]|]. by destruct keep.
Qed.

(** X13. One call per vchunk, in order, and none for other fields: the
    calls of a run that returns are the requests for a beginning of the
    vchunk list, each for the same table, filter and row window. *)
Theorem read_calls_prefix (vchunks : list (list string)) (run : Run) :
  read env table_name vchunks ri n where_
       sqlalchemy_cnxnstr output_tablename keep db = Return run →
  ∃ k, (k ≤ length vchunks)%nat
       ∧ called run
         = (λ vchunk, read_request table_name where_ vchunk n ri)
           <$> take k vchunks.
Proof.
  intros (st & df0 & Hloop & _ & _ & ->)%read_Return_inv. simpl.
  by apply read_loop_calls in Hloop.
Qed.

(** X14. A vchunk that gets no data ends the loop: when the vchunks before
    it all get rows, [read] returns what it returns for those vchunks
    alone, with the one call more; the vchunks after it are not fetched
    and their columns are missing from the result. *)
Theorem read_stops_at_no_data (pre : list (list string))
    (vchunk : list string) (post : list (list string)) (run : Run) :
  (∀ j, (j < length pre)%nat → has_data (respond env j)) →
  respond env (length pre) = RfcReturns None →
  read env table_name pre ri n where_
       sqlalchemy_cnxnstr output_tablename keep db = Return run →
  read env table_name (pre ++ vchunk :: post) ri n where_
       sqlalchemy_cnxnstr output_tablename keep db
  = Return {| returned := returned run;
              called := called run
                        ++ [read_request table_name where_ vchunk n ri];
              stored := stored run |}.
Proof.
  intros Hdata Hnone. unfold read.
  destruct (read_loop _ _ _ _ _ pre asm_init) as [st1|e] eqn:Hloop; simpl;
    [|discriminate].
  destruct (read_loop_app pre asm_init st1 Hdata Hloop) as [Happ Hlen].
  rewrite Happ. simpl in Hlen. simpl. rewrite Hlen, Hnone. simpl.
  destruct (DataFrame_new (st_data st1) (st_fields st1)) as [df0|e]; simpl;
    [|discriminate].
  destruct sqlalchemy_cnxnstr as [cs|]; simpl.
  - destruct (to_sql _ _ _ _) as [db'|e]; simpl; [|discriminate].
    by intros [= <-].
  - by intros [= <-].
Qed.

(** X15. An error of the remote call is not caught: when the vchunks
    before that call all get rows and are merged, [read] raises the error
    of the call, whatever follows. *)
Theorem read_call_error_propagates (pre : list (list string))
    (vchunk : list string) (post : list (list string)) :
  (∀ j, (j < length pre)%nat → has_data (respond env j)) →
  respond env (length pre) = RfcRaises →
  returns (read_loop env table_name where_ ri n pre asm_init) →
  read env table_name (pre ++ vchunk :: post) ri n where_
       sqlalchemy_cnxnstr output_tablename keep db
  = Raise RFCError.
Proof.
  intros Hdata Hraise [st1 Hloop]. unfold read.
  destruct (read_loop_app pre asm_init st1 Hdata Hloop) as [Happ Hlen].
  rewrite Happ. simpl in Hlen. simpl. by rewrite Hlen, Hraise.
Qed.

Lemma DataFrame_new_rectangular data columns df :
  DataFrame_new data columns = Return df → rectangular df.
Proof.
  unfold DataFrame_new, rectangular.
  destruct data as [[|row rows]|]; try (intros [= <-]; constructor).
  set (k := max_list (length <$> row :: rows)).
  assert (Forall (λ r : list (option string), length r = k)
            ((λ r : list string,
                (Some <$> r) ++ replicate (k - length r) None)
             <$> row :: rows)) as Hpadded.
  { apply Forall_fmap, Forall_forall. intros r Hr. simpl.
    rewrite length_app, length_fmap, length_replicate.
    assert (length r ≤ k)%nat; [|lia].
    apply max_list_elem_of_le. by apply list_elem_of_fmap_2. }
  destruct columns as [cols|].
  - destruct (decide _) as [Hcols|]; intros [= <-]; simpl.
    by rewrite Hcols.
  - intros [= <-]. simpl. by rewrite length_fmap, length_seq.
Qed.

Lemma set_column_rectangular df label value :
  rectangular df → rectangular (set_column df label value).
Proof.
  unfold rectangular, set_column. intros Hdf.
  destruct (decide _); simpl; apply Forall_fmap;
    (eapply Forall_impl; [exact Hdf|]); intros row Hrow; simpl in *.
  - rewrite length_zip_with. lia.
  - rewrite !length_app. simpl. lia.
Qed.

(** X16. The frame [read] returns as DATA, and the frame it writes to the
    database, has in every row exactly one cell per column. *)
Theorem read_frames_rectangular (vchunks : list (list string)) (run : Run) :
  read env table_name vchunks ri n where_
       sqlalchemy_cnxnstr output_tablename keep db = Return run →
  (∀ df, DATA (returned run) = Some df → rectangular df)
  ∧ (∀ name df, (name, df) ∈ stored run →
                (name, df) ∈ db ∨ rectangular df).
Proof.
  intros (st & df0 & _ & Hdf & _ & ->)%read_Return_inv. simpl.
  apply DataFrame_new_rectangular in Hdf.
  pose proof (set_column_rectangular df0 "TIMESTAMP" (utcnow env) Hdf).
  split.
  - intros df. destruct keep; [|discriminate]. by intros [= <-].
  - intros name df. destruct sqlalchemy_cnxnstr; [|by left].
    intros [Hin|Hin%list_elem_of_singleton]%elem_of_app; [by left|].
    right. by injection Hin as _ ->.
Qed.

(** X17. The database is only appended to. Without a connection string
    [read] leaves it as it is. With one, a run that returns has added one
    write, to [output_tablename] or, when that is missing or empty, to
    [table_name]; the frame written has COUNT rows and is the frame
    returned as DATA when [keep] is set. *)
Theorem read_appends_one_write (vchunks : list (list string)) (run : Run) :
  read env table_name vchunks ri n where_
       sqlalchemy_cnxnstr output_tablename keep db = Return run →
  match sqlalchemy_cnxnstr with
  | None => stored run = db
  | Some _ =>
      ∃ df, stored run = db ++ [(sink_table table_name output_tablename, df)]
            ∧ COUNT (returned run) = length (df_rows df)
            ∧ (keep = true → DATA (returned run) = Some df)
  end.
Proof.
  intros (st & df0 & _ & _ & _ & ->)%read_Return_inv. simpl.
  destruct sqlalchemy_cnxnstr; [|done].
  eexists. repeat split. by intros ->.
Qed.

(** X18. What a run that returns reports. STATUS is 'OK' exactly when a
    connection string is given or [keep] is set, and 'FAIL' otherwise; DATA
    is there exactly when [keep] is set, and then COUNT is its number of
    rows; TIMESTAMP is the time of the run. *)
Theorem read_report (vchunks : list (list string)) (run : Run) :
  read env table_name vchunks ri n where_
       sqlalchemy_cnxnstr output_tablename keep db = Return run →
  (STATUS (returned run) = "OK"
   ↔ is_Some sqlalchemy_cnxnstr ∨ keep = true)
  ∧ (STATUS (returned run) = "FAIL"
     ↔ sqlalchemy_cnxnstr = None ∧ keep = false)
  ∧ (is_Some (DATA (returned run)) ↔ keep = true)
  ∧ (∀ df, DATA (returned run) = Some df →
           COUNT (returned run) = length (df_rows df))
  ∧ TIMESTAMP (returned run) = utcnow env.
Proof.
  intros (st & df0 & _ & _ & _ & ->)%read_Return_inv. simpl.
  unfold is_Some.
  destruct sqlalchemy_cnxnstr as [cs|], keep; simpl; repeat split;
    try (intros df [= <-]; done);
    try (intros [[x Hx]|Hk]; discriminate);
    try (intros [Hc Hk]; discriminate);
    try (intros [x Hx]; discriminate);
    try (intros; discriminate);
    try (intros; eexists; reflexivity);
    try done; eauto.
Qed.

(** X19. When the database does not take the write, [read] with a
    connection string does not return: no result is reported, [keep] or
    not. *)
Theorem read_rejected_write_no_result (vchunks : list (list string)) :
  db_accepts env = false →
  is_Some sqlalchemy_cnxnstr →
  ¬ returns (read env table_name vchunks ri n where_
                  sqlalchemy_cnxnstr output_tablename keep db).
Proof.
  intros Hdb Hcs [run (st & df0 & _ & _ & Hacc & _)%read_Return_inv].
  rewrite Hacc in Hdb; done.
Qed.
Lemma max_list_lengths {A} (rows : list (list A)) (k : nat) :
  rows ≠ [] → Forall (λ row, length row = k) rows →
  max_list (length <$> rows) = k.
Proof.
  induction rows as [|row rows IH]; [done|]. intros _ Hall.
  apply Forall_cons in Hall as [Hrow Hrows].
  rewrite fmap_cons. change (max_list (?x :: ?l)) with (Nat.max x (max_list l)).
  rewrite Hrow. destruct rows as [|row' rows']; [simpl; lia|].
  rewrite IH by done. lia.
Qed.

(** X20. The dataset. When every assembled row has one cell per field and
    no field is called TIMESTAMP, [read] with [keep] set and no connection
    string returns, as DATA, the fields followed by TIMESTAMP as columns and
    each assembled row followed by the time of the run; COUNT is the number
    of assembled rows. *)
Theorem read_returns_dataset (vchunks : list (list string)) (st : AsmState)
    (data : list (list string)) (fs : list string) :
  read_loop env table_name where_ ri n vchunks asm_init = Return st →
  st_data st = Some data → st_fields st = Some fs →
  Forall (λ row, length row = length fs) data →
  "TIMESTAMP" ∉ fs →
  read env table_name vchunks ri n where_ None output_tablename true db
  = Return
      {| returned :=
           {| STATUS := "OK"; TIMESTAMP := utcnow env;
              COUNT := length data;
              DATA := Some
                {| df_columns := fs ++ ["TIMESTAMP"];
                   df_rows := (λ row, (Some <$> row) ++ [Some (utcnow env)])
                              <$> data |} |};
         called := st_calls st;
         stored := db |}.
Proof.
  intros Hloop Hdata Hfs Hall Hts. unfold read. rewrite Hloop. simpl.
  rewrite Hdata, Hfs.
  assert (DataFrame_new (Some data) (Some fs)
          = Return {| df_columns := fs;
                      df_rows := (λ row : list string, Some <$> row)
                                 <$> data |}) as ->.
  { unfold DataFrame_new. destruct data as [|row rows]; [done|].
    rewrite (max_list_lengths (row :: rows) (length fs)) by done.
    rewrite decide_True by done. do 2 f_equal.
    apply Forall_fmap_ext_1. eapply Forall_impl; [exact Hall|].
    intros r Hr. simpl in *. rewrite Hr, Nat.sub_diag. simpl.
    by rewrite app_nil_r. }
  simpl. unfold set_column. simpl. rewrite decide_False by done. simpl.
  rewrite !length_fmap, <- list_fmap_compose. done.
Qed.

(** X21. A row with more cells than there are fields, as a value holding
    the delimiter gives, makes [read] raise AssertionError when it builds
    the frame; nothing is written and nothing returned. *)
Theorem read_ragged_AssertionError (vchunks : list (list string))
    (st : AsmState) (data : list (list string)) (fs : list string) :
  read_loop env table_name where_ ri n vchunks asm_init = Return st →
  st_data st = Some data → st_fields st = Some fs →
  Exists (λ row, (length fs < length row)%nat) data →
  read env table_name vchunks ri n where_
       sqlalchemy_cnxnstr output_tablename keep db
  = Raise AssertionError.
Proof.
  intros Hloop Hdata Hfs Hex. unfold read. rewrite Hloop. simpl.
  rewrite Hdata, Hfs. unfold DataFrame_new.
  destruct data as [|row rows]; [by apply Exists_nil in Hex|].
  apply Exists_exists in Hex as (r & Hr & Hlong).
  assert (length r ≤ max_list (length <$> row :: rows))%nat as Hmax
    by (apply max_list_elem_of_le; by apply list_elem_of_fmap_2).
  rewrite decide_False by lia. done.
Qed.
End ReadRuns.

(** * Runs of the further properties on concrete inputs *)

Lemma catalog_abcd_in_range (r : MetaRow) :
  r ∈ catalog_abcd → 0 ≤ LENG r ∧ LENG r + 150 < 2 ^ 63.
Proof.
  intros Hr. apply list_elem_of_In in Hr. simpl in Hr.
  destruct Hr as [<-|[<-|[<-|[<-|[]]]]]; simpl; lia.
Qed.

Lemma vchunks_tail_nonempty_first_over :
  Forall (λ vc : list string, vc ≠ []) (tail [[]; ["C"]])
  ∧ (hd_error [[]; ["C"]] = Some [] →
     ∃ f fs, ["C"] = f :: fs
             ∧ 150 < wrap64 (width_of (catalog [("C", 500)]) f)).
Proof.
  apply (vchunks_tail_nonempty (catalog [("C", 500)]) 150 ["C"] [[]; ["C"]]).
  reflexivity.
Defined.

Lemma vchunks_tail_within_budget_abcd :
  Forall (λ vc, chunk_width catalog_abcd (tail vc) ≤ 150)
         [["A"; "B"]; ["C"; "D"]]
  ∧ chunk_width catalog_abcd (hd [] [["A"; "B"]; ["C"; "D"]]) ≤ 150.
Proof.
  apply (vchunks_tail_within_budget catalog_abcd 150)
    with (fields := ["A"; "B"; "C"; "D"]).
  - lia.
  - apply catalog_abcd_in_range.
  - reflexivity.
Defined.

Lemma over_budget_field_opens_vchunk_abcd :
  width_of catalog_abcd "D" ≤ 150.
Proof.
  apply (over_budget_field_opens_vchunk catalog_abcd 150)
    with (fields := ["A"; "B"; "C"; "D"]) (vcs := [["A"; "B"]; ["C"; "D"]])
         (vc := ["C"; "D"]).
  - lia.
  - apply catalog_abcd_in_range.
  - reflexivity.
  - apply list_elem_of_In. simpl. auto.
  - apply list_elem_of_In. simpl. auto.
Defined.

Lemma fields_within_budget_one_vchunk_ab :
  get_meta_vchunks catalog_abcd 150 ["A"; "B"] = Return [["A"; "B"]].
Proof.
  apply (fields_within_budget_one_vchunk catalog_abcd 150).
  - apply catalog_abcd_in_range.
  - discriminate.
  - repeat (constructor; [reflexivity|]). constructor.
  - vm_compute. discriminate.
Defined.

Lemma vchunks_returned_iff_abcd :
  Forall (λ f, length (rows_at catalog_abcd (upper f)) = 1%nat)
         ["A"; "B"; "C"; "D"].
Proof.
  apply (proj1 (proj1 (vchunks_returned_iff catalog_abcd 150
                         ["A"; "B"; "C"; "D"]))).
  eexists. reflexivity.
Defined.

Lemma get_meta_dropped_field_KeyError_include :
  get_meta catalog_mixed (Some ["MANDT"; ".include"]) 400 = Raise KeyError.
Proof.
  apply (get_meta_dropped_field_KeyError catalog_mixed 400)
    with (field := ".include")
         (r := {| FIELDNAME := ".INCLUDE"; LENG := 0; OTHER := [] |}).
  - apply (bool_decide_unpack _). vm_compute. exact I.
  - apply list_elem_of_In. simpl. auto.
  - simpl. lia.
  - reflexivity.
  - apply list_elem_of_In. simpl. auto.
Defined.

Lemma get_meta_all_fields_mixed :
  ∃ vcs,
    get_meta catalog_mixed None 400
    = Return {| meta_csv := drop_includes catalog_mixed; vchunks := vcs |}
    ∧ concat vcs = index_tolist (drop_includes catalog_mixed).
Proof.
  apply (get_meta_all_fields catalog_mixed 400).
  - apply (bool_decide_unpack _). vm_compute. exact I.
  - repeat (constructor; [reflexivity|]). constructor.
Defined.

Lemma vchunks_case_insensitive_abcd :
  get_meta_vchunks catalog_abcd 150 (upper <$> ["a"; "b"; "C"; "d"])
  = Return ((λ vc : list string, upper <$> vc) <$> [["a"; "b"]; ["C"; "d"]]).
Proof.
  apply (vchunks_case_insensitive catalog_abcd 150). reflexivity.
Defined.

Lemma split_bar_join_bar_cells :
  split_bar (join_bar ["a"; ""; "b c"]) = ["a"; ""; "b c"].
Proof.
  apply (split_bar_join_bar ["a"; ""; "b c"]).
  - discriminate.
  - repeat (constructor; [reflexivity|]). constructor.
Defined.

Lemma strip_fixed_iff_cell : strip "ab c" = "ab c".
Proof.
  apply (proj2 (proj1 (strip_fixed_iff "ab c"))). split; reflexivity.
Defined.

Lemma read_loop_truncates_fewer :
  ∃ st data,
    read_loop env_fewer "MARA" "" 0 10 [["A"; "B"]; ["C"]] asm_init
    = Return st
    ∧ st_fields st = Some (concat [["A"; "B"]; ["C"]])
    ∧ st_data st = Some data
    ∧ length data = last_count (length ["a |b"; "c| d"]) [["x"]]
    ∧ ∀ i, (i < length data)%nat →
        data !! i
        = Some (cells_at i (parse <$> ["a |b"; "c| d"] :: [["x"]])).
Proof.
  apply (read_loop_truncates env_fewer "MARA" "" 0 10 ["A"; "B"] [["C"]]
           ["a |b"; "c| d"] [["x"]]).
  - reflexivity.
  - intros [|[|k]] D; simpl; intros [= <-]; reflexivity.
  - simpl. split; [lia|exact I].
Defined.

Lemma read_calls_prefix_stored :
  ∃ k, (k ≤ length [["A"; "B"]; ["C"]])%nat
       ∧ called run_stored
         = (λ vchunk, read_request "MARA" "" vchunk 10 0)
           <$> take k [["A"; "B"]; ["C"]].
Proof.
  apply (read_calls_prefix env_aligned "MARA" "" 0 10
           (Some "sqlite:////home/cks/db.sqlite") None true []).
  reflexivity.
Defined.

Lemma read_stops_at_no_data_gap :
  read env_gap "MARA" ([["A"; "B"]] ++ ["C"] :: [["D"]]) 0 10 ""
       None None true []
  = Return {| returned := returned run_gap_pre;
              called := called run_gap_pre
                        ++ [read_request "MARA" "" ["C"] 10 0];
              stored := stored run_gap_pre |}.
Proof.
  apply (read_stops_at_no_data env_gap "MARA" "" 0 10 None None true []).
  - intros [|j] Hj; [eexists; reflexivity|simpl in Hj; lia].
  - reflexivity.
  - reflexivity.
Defined.

Lemma read_call_error_propagates_aligned :
  read env_aligned "MARA" ([["A"; "B"]; ["C"]] ++ ["D"] :: []) 0 10 ""
       None None true []
  = Raise RFCError.
Proof.
  apply (read_call_error_propagates env_aligned "MARA" "" 0 10
           None None true []).
  - intros [|[|j]] Hj; [eexists; reflexivity..|simpl in Hj; lia].
  - reflexivity.
  - eexists. reflexivity.
Defined.

Lemma read_frames_rectangular_stored :
  (∀ df, DATA (returned run_stored) = Some df → rectangular df)
  ∧ (∀ name df, (name, df) ∈ stored run_stored →
                (name, df) ∈ [] ∨ rectangular df).
Proof.
  apply (read_frames_rectangular env_aligned "MARA" "" 0 10
           (Some "sqlite:////home/cks/db.sqlite") None true []
           [["A"; "B"]; ["C"]]).
  reflexivity.
Defined.

Lemma read_appends_one_write_stored :
  ∃ df, stored run_stored = [] ++ [(sink_table "MARA" None, df)]
        ∧ COUNT (returned run_stored) = length (df_rows df)
        ∧ (true = true → DATA (returned run_stored) = Some df).
Proof.
  apply (read_appends_one_write env_aligned "MARA" "" 0 10
           (Some "sqlite:////home/cks/db.sqlite") None true []
           [["A"; "B"]; ["C"]]).
  reflexivity.
Defined.

Lemma read_report_stored :
  (STATUS (returned run_stored) = "OK"
   ↔ is_Some (Some "sqlite:////home/cks/db.sqlite") ∨ true = true)
  ∧ (STATUS (returned run_stored) = "FAIL"
     ↔ Some "sqlite:////home/cks/db.sqlite" = None ∧ true = false)
  ∧ (is_Some (DATA (returned run_stored)) ↔ true = true)
  ∧ (∀ df, DATA (returned run_stored) = Some df →
           COUNT (returned run_stored) = length (df_rows df))
  ∧ TIMESTAMP (returned run_stored) = utcnow env_aligned.
Proof.
  apply (read_report env_aligned "MARA" "" 0 10
           (Some "sqlite:////home/cks/db.sqlite") None true []
           [["A"; "B"]; ["C"]]).
  reflexivity.
Defined.

Lemma read_rejected_write_no_result_down :
  ¬ returns (read env_db_down "MARA" [["A"; "B"]] 0 10 ""
                  (Some "sqlite:////home/cks/db.sqlite") None true []).
Proof.
  apply (read_rejected_write_no_result env_db_down "MARA" "" 0 10
           (Some "sqlite:////home/cks/db.sqlite") None true []).
  - reflexivity.
  - eexists. reflexivity.
Defined.

Lemma read_returns_dataset_aligned :
  read env_aligned "MARA" [["A"; "B"]; ["C"]] 0 10 "" None None true []
  = Return
      {| returned :=
           {| STATUS := "OK"; TIMESTAMP := utcnow env_aligned;
              COUNT := length [["a"; "b"; "x"]; ["c"; "d"; "y"]];
              DATA := Some
                {| df_columns := ["A"; "B"; "C"] ++ ["TIMESTAMP"];
                   df_rows :=
                     (λ row, (Some <$> row) ++ [Some (utcnow env_aligned)])
                     <$> [["a"; "b"; "x"]; ["c"; "d"; "y"]] |} |};
         called := [read_request "MARA" "" ["A"; "B"] 10 0;
                    read_request "MARA" "" ["C"] 10 0];
         stored := [] |}.
Proof.
  apply (read_returns_dataset env_aligned "MARA" "" 0 10 None []
           [["A"; "B"]; ["C"]]
           {| st_data := Some [["a"; "b"; "x"]; ["c"; "d"; "y"]];
              st_fields := Some ["A"; "B"; "C"];
              st_calls := [read_request "MARA" "" ["A"; "B"] 10 0;
                           read_request "MARA" "" ["C"] 10 0] |}).
  - reflexivity.
  - reflexivity.
  - reflexivity.
  - repeat (constructor; [reflexivity|]). constructor.
  - apply (bool_decide_unpack _). vm_compute. exact I.
Defined.

Lemma read_ragged_AssertionError_bar :
  read env_ragged "MARA" [["A"; "B"]] 0 10 "" None None true []
  = Raise AssertionError.
Proof.
  apply (read_ragged_AssertionError env_ragged "MARA" "" 0 10
           None None true [] [["A"; "B"]]
           {| st_data := Some [["a"; "b"; "c"]];
              st_fields := Some ["A"; "B"];
              st_calls := [read_request "MARA" "" ["A"; "B"] 10 0] |}
           [["a"; "b"; "c"]] ["A"; "B"]).
  - reflexivity.
  - reflexivity.
  - reflexivity.
  - apply Exists_cons_hd. simpl. lia.
Defined.
